(** * KinderSchutz-Bot: the response-resolution pipeline

    A shallow embedding of the chat service ([generateBotResponse] and its
    helpers) and of the two versions of the [/api/chat] route handler,
    followed by the properties the specification states about them.

    JavaScript strings are sequences of UTF-16 code units, so a string is a
    [list N]; [length] is the JavaScript [.length].  String literals of the
    source are written as Rocq string literals (UTF-8 bytes) and decoded to
    code units by [lit].

    What lies outside the source is a parameter of the model: the Unicode
    case tables of the engine ([CaseMapping]), the value of [Math.random()],
    the outcome of the [fetch] raced against the timer on the client, the
    credential in the environment and the outcome of the call to the
    completion service on the server.  The module-level [Map]s are passed
    in and returned. *)

From Stdlib Require Import List Bool Arith NArith ZArith QArith Qround Lia.
From Stdlib Require Strings.String Strings.Ascii Numbers.DecimalString.
From Stdlib Require Numbers.DecimalNat.
Import ListNotations.

Import Strings.String.StringSyntax.

Set Implicit Arguments.
Delimit Scope string_scope with string.
Close Scope Q_scope.

(* ------------------------------------------------------------------ *)
(** ** JavaScript strings *)

Module Js.

Definition str := list N.

(** UTF-8 bytes of a literal to UTF-16 code units. *)
Fixpoint utf16_of_utf8 (bs : list N) : str :=
  let cont b := N.land b 63 in
  match bs with
  | [] => []
  | b :: r =>
    if (b <? 128)%N then b :: utf16_of_utf8 r
    else if (b <? 224)%N then
      match r with
      | c1 :: r1 =>
          N.lor (N.shiftl (N.land b 31) 6) (cont c1) :: utf16_of_utf8 r1
      | [] => [65533%N]
      end
    else if (b <? 240)%N then
      match r with
      | c1 :: c2 :: r2 =>
          N.lor (N.shiftl (N.land b 15) 12)
                (N.lor (N.shiftl (cont c1) 6) (cont c2)) :: utf16_of_utf8 r2
      | _ => [65533%N]
      end
    else
      match r with
      | c1 :: c2 :: c3 :: r3 =>
          let cp := N.lor (N.shiftl (N.land b 7) 18)
                     (N.lor (N.shiftl (cont c1) 12)
                        (N.lor (N.shiftl (cont c2) 6) (cont c3))) in
          let v := (cp - 65536)%N in
          (55296 + N.shiftr v 10)%N :: (56320 + N.land v 1023)%N
            :: utf16_of_utf8 r3
      | _ => [65533%N]
      end
  end.

Fixpoint bytes_of_string (s : String.string) : list N :=
  match s with
  | String.EmptyString => []
  | String.String a r => Ascii.N_of_ascii a :: bytes_of_string r
  end.

Definition lit (s : String.string) : str := utf16_of_utf8 (bytes_of_string s).
Arguments lit s%_string.

(** [a === b] on strings. *)
Fixpoint eqb (a b : str) : bool :=
  match a, b with
  | [], [] => true
  | x :: a', y :: b' => (x =? y)%N && eqb a' b'
  | _, _ => false
  end.

(** [text.startsWith(pat)]. *)
Fixpoint startsWith (pat text : str) : bool :=
  match pat, text with
  | [], _ => true
  | _ :: _, [] => false
  | p :: pat', c :: text' => (p =? c)%N && startsWith pat' text'
  end.

(** Some suffix of [text] (the empty one included) satisfies [P]: a search
    that tries every start position from the left. *)
Fixpoint anywhere (P : str -> bool) (text : str) : bool :=
  P text ||
  match text with
  | [] => false
  | _ :: text' => anywhere P text'
  end.

(** [text.includes(pat)]. *)
Definition includes (text pat : str) : bool := anywhere (startsWith pat) text.

(** Decimal rendering of a non-negative integer, as in a template literal. *)
Definition of_nat (n : nat) : str :=
  lit (DecimalString.NilEmpty.string_of_uint (Nat.to_uint n)).

Definition of_N (n : N) : str := of_nat (N.to_nat n).

(** White space and line terminators removed by [String.prototype.trim]. *)
Definition is_white (c : N) : bool :=
  existsb (N.eqb c)
    [9; 10; 11; 12; 13; 32; 160; 5760; 8232; 8233; 8239; 8287; 12288; 65279]%N
  || ((8192 <=? c) && (c <=? 8202))%N.

Fixpoint trimStart (s : str) : str :=
  match s with
  | c :: r => if is_white c then trimStart r else s
  | [] => []
  end.

Definition trim (s : str) : str := rev (trimStart (rev (trimStart s))).

(** Truthiness of a string value. *)
Definition truthy (s : str) : bool :=
  match s with [] => false | _ => true end.

End Js.

Abbreviation jsstring := Js.str.

(* ------------------------------------------------------------------ *)
(** ** Case mapping of the JavaScript engine

    [toLowerCase] is [String.prototype.toLowerCase]; [canonicalize] is the
    per-code-unit [Canonicalize] that a regular expression with the [i]
    flag (and without [u]) applies to both the pattern and the input.  Both
    come from the Unicode tables of the engine.  The two laws are the part
    of ECMAScript's [Canonicalize] that does not depend on the tables: an
    ASCII code unit is mapped to its ASCII upper case, and a code unit from
    128 on is never mapped below 128. *)

Definition ascii_upper (c : N) : N :=
  if ((97 <=? c) && (c <=? 122))%N then (c - 32)%N else c.

Class CaseMapping := {
  toLowerCase : jsstring -> jsstring;
  canonicalize : N -> N;
  canonicalize_ascii : forall c, (c < 128)%N -> canonicalize c = ascii_upper c;
  canonicalize_high : forall c, (128 <= c)%N -> (128 <= canonicalize c)%N
}.

(** The tables restricted to Basic Latin and Latin-1: exact on strings whose
    code units are all below 256; code units from 256 on are left alone. *)
Module Latin1.

Definition lower_unit (c : N) : N :=
  if ((65 <=? c) && (c <=? 90))%N then (c + 32)%N
  else if ((192 <=? c) && (c <=? 222) && negb (c =? 215))%N then (c + 32)%N
  else c.

Definition upper_unit (c : N) : N :=
  if (c <? 128)%N then ascii_upper c
  else if ((224 <=? c) && (c <=? 254) && negb (c =? 247))%N then (c - 32)%N
  else if (c =? 255)%N then 376%N
  else if (c =? 181)%N then 924%N
  else c.

End Latin1.

(** The Latin-1 tables obey the two laws. *)
Module Latin1Facts.
Import Latin1.

Lemma upper_unit_ascii c : (c < 128)%N -> upper_unit c = ascii_upper c.
Proof.
  intros Hc. unfold upper_unit.
  destruct (N.ltb_spec c 128) as [_|Hge]; [reflexivity|lia].
Qed.

Lemma upper_unit_high c : (128 <= c)%N -> (128 <= upper_unit c)%N.
Proof.
  intros Hc. unfold upper_unit.
  destruct (N.ltb_spec c 128) as [Hlt|_]; [lia|].
  destruct ((224 <=? c) && (c <=? 254) && negb (c =? 247))%N eqn:E.
  - apply andb_prop in E as [E _]. apply andb_prop in E as [E _].
    apply N.leb_le in E. lia.
  - destruct (c =? 255)%N; [lia|]. destruct (c =? 181)%N; lia.
Qed.

#[export] Instance tables : CaseMapping := {|
  toLowerCase := map lower_unit;
  canonicalize := upper_unit;
  canonicalize_ascii := upper_unit_ascii;
  canonicalize_high := upper_unit_high
|}.

End Latin1Facts.

(* ------------------------------------------------------------------ *)
(** ** Regular expressions

    The fragment of the regular-expression language the source uses, always
    with the [i] flag: literal characters, alternation, sequencing and the
    negative lookahead [(?!r)].  A pattern that begins with [^] is
    [anchored].  [matches r t] lists the remainders of [t] after every way
    [r] can match a prefix of [t], in the backtracking order of the engine. *)

Module Re.

Inductive re :=
| Chars (s : jsstring)
| Or (a b : re)
| Then (a b : re)
| NotFollowedBy (a : re).

Record RegExp := { anchored : bool; body : re }.

(** The matcher, over the comparison of a pattern character with an input
    character. *)
Section Matching.
Variable same_letter : N -> N -> bool.

(** The remainder of [text] after the characters of [pat], if they match. *)
Fixpoint strip (pat text : jsstring) : option jsstring :=
  match pat, text with
  | [], _ => Some text
  | _ :: _, [] => None
  | p :: pat', c :: text' =>
      if same_letter p c then strip pat' text' else None
  end.

Fixpoint matches (r : re) (t : jsstring) : list jsstring :=
  match r with
  | Chars s => match strip s t with Some rest => [rest] | None => [] end
  | Or a b => matches a t ++ matches b t
  | Then a b => flat_map (matches b) (matches a t)
  | NotFollowedBy a => match matches a t with [] => [t] | _ => [] end
  end.

Definition matches_here (r : re) (t : jsstring) : bool :=
  match matches r t with [] => false | _ => true end.

(** No proper suffix of the characters [pat] matches at the start of [z]:
    a match of [pat] cannot begin before [z] and end inside it. *)
Definition no_straddle (pat z : jsstring) : bool :=
  forallb (fun k => match strip (skipn k pat) z with
                    | None => true
                    | Some _ => false
                    end)
          (seq 1 (length pat - 1)).

(** [pattern.test(input)] for a pattern without the [g] and [y] flags. *)
Definition test_by (p : RegExp) (input : jsstring) : bool :=
  if anchored p then matches_here (body p) input
  else Js.anywhere (matches_here (body p)) input.

End Matching.

(** With the [i] flag two characters are the same when they canonicalize
    to the same code unit. *)
Definition same_letter `{CaseMapping} (p c : N) : bool :=
  (canonicalize p =? canonicalize c)%N.

Definition test `{CaseMapping} (p : RegExp) (input : jsstring) : bool :=
  test_by same_letter p input.

(** [same_letter], decided without the tables whenever one of the two code
    units is ASCII (by the two laws of [CaseMapping]). *)
Definition folded `{CaseMapping} (p c : N) : bool :=
  if (p <? 128)%N then
    if (c <? 128)%N then (ascii_upper p =? ascii_upper c)%N else false
  else if (c <? 128)%N then false
  else same_letter p c.

(** [a|b|...] *)
Fixpoint one_of (alts : list jsstring) : re :=
  match alts with
  | [] => NotFollowedBy (Chars [])
  | [a] => Chars a
  | a :: rest => Or (Chars a) (one_of rest)
  end.

End Re.

(* ------------------------------------------------------------------ *)
(** ** [Map]: string keys, insertion order

    A JavaScript [Map] iterates in insertion order; [set] on a key that is
    present replaces the value and keeps the key's place. *)

Module JsMap.

Definition t := list (jsstring * jsstring).

Fixpoint get (m : t) (k : jsstring) : option jsstring :=
  match m with
  | [] => None
  | (k', v) :: r => if Js.eqb k' k then Some v else get r k
  end.

Definition has (m : t) (k : jsstring) : bool :=
  match get m k with Some _ => true | None => false end.

Fixpoint set (m : t) (k v : jsstring) : t :=
  match m with
  | [] => [(k, v)]
  | (k', v') :: r => if Js.eqb k' k then (k', v) :: r else (k', v') :: set r k v
  end.

Fixpoint delete (m : t) (k : jsstring) : t :=
  match m with
  | [] => []
  | (k', v) :: r => if Js.eqb k' k then r else (k', v) :: delete r k
  end.

Definition size (m : t) : nat := length m.

(** [m.keys().next().value] *)
Definition first_key (m : t) : option jsstring :=
  match m with
  | [] => None
  | (k, _) :: _ => Some k
  end.

Definition keys (m : t) : list jsstring := map fst m.

(** The idiom the source writes out twice: [m.set(k, v)], then, if
    [m.size > 100], [m.delete(m.keys().next().value)]. *)
Definition set_bounded (m : t) (k v : jsstring) : t :=
  let m' := set m k v in
  if 100 <? size m' then
    match first_key m' with
    | Some oldest => delete m' oldest
    | None => m'
    end
  else m'.

End JsMap.

(* ------------------------------------------------------------------ *)
(** ** Values and completions *)

Inductive jsvalue :=
| VString (s : jsstring)
| VUndefined.

(** How a piece of code ends: with a value, or with a thrown error.  [E]
    is what the handlers of that code inspect of the error. *)
Inductive completion (E A : Type) :=
| Return (a : A)
| Throw (e : E).
Arguments Return {E A} a.
Arguments Throw {E A} e.

Definition bind {E A B} (c : completion E A) (k : A -> completion E B)
  : completion E B :=
  match c with
  | Return a => k a
  | Throw e => Throw e
  end.

(** [try { c } catch (e) { h e }] *)
Definition try_catch {E A} (c : completion E A) (h : E -> completion E A)
  : completion E A :=
  match c with
  | Return a => Return a
  | Throw e => h e
  end.

Notation "x <- c ;; k" := (bind c (fun x => k))
  (at level 61, c at next level, right associativity).

(** A message of the conversation: [{ sender, text }]. *)
Record Turn := { sender : jsstring; text : jsstring }.

(** [l.slice(-n)] *)
Definition slice_last {A} (n : nat) (l : list A) : list A :=
  skipn (length l - n) l.

(* ------------------------------------------------------------------ *)
(** ** The chat service (client side): [generateBotResponse] *)

Module ChatService.

Local Open Scope string_scope.

Definition CONCERN_KEYWORDS : list jsstring := map Js.lit
  [ "missbrauch"; "geschlagen"; "angefasst"; "berührt"; "gewalt"; "angst";
    "trainer"; "lehrer"; "verein"; "mannschaft"; "team"; "schule";
    "wehtun"; "wehtut"; "weh tut"; "hilfe"; "allein"; "geheimnis";
    "nicht sagen"; "nicht erzählen"; "nicht verraten"; "droht";
    "nicht erlaubt"; "gezwungen"; "zwingen"; "schlecht gefühl";
    "eklig"; "ekelt"; "traurig"; "sexuell"; "sexual"; "not allowed"; "touch" ].

Record EmergencyResource := {
  name : jsstring;
  description : jsstring;
  contact : jsstring
}.

Definition EMERGENCY_RESOURCES : list EmergencyResource :=
  [ {| name := Js.lit "Nummer gegen Kummer";
       description := Js.lit "Kostenlose Telefon-Beratung für Kinder und Jugendliche";
       contact := Js.lit "116 111" |};
    {| name := Js.lit "Hilfetelefon Sexueller Missbrauch";
       description := Js.lit "Kostenlose und anonyme Beratung";
       contact := Js.lit "0800 22 55 530" |};
    {| name := Js.lit "Kinderschutz-Zentrum";
       description := Js.lit "Hilfe bei Gewalt gegen Kinder";
       contact := Js.lit "In deiner Stadt oder unter www.kinderschutz-zentren.org" |} ].

Record CommonPattern := { pattern : Re.RegExp; response : jsstring }.

Definition COMMON_PATTERNS : list CommonPattern :=
  [ {| pattern := {| Re.anchored := true;
                     Re.body := Re.one_of (map Js.lit
                       ["hallo"; "hi"; "hey"; "guten tag"; "servus"; "moin"]) |};
       response := Js.lit "Hallo! Schön, dass du da bist. Wie geht es dir heute? Du kannst mir alles erzählen, was dich beschäftigt." |};
    {| pattern := {| Re.anchored := false;
                     Re.body := Re.one_of (map Js.lit
                       ["was kannst du"; "wofür bist du"; "wie funktionierst du"]) |};
       response := Js.lit "Ich bin FreundBot, dein digitaler Freund. Du kannst mit mir über alles reden, was dich beschäftigt. Ich kann dir zuhören, wenn du Sorgen hast oder über deine Erfahrungen sprechen möchtest. Wenn du Hilfe brauchst, kann ich dir auch sagen, wo du sie bekommen kannst. Worüber möchtest du sprechen?" |};
    {| pattern := {| Re.anchored := false;
                     Re.body := Re.one_of (map Js.lit
                       ["danke"; "dankeschön"; "vielen dank"]) |};
       response := Js.lit "Gerne! Ich freue mich, dass ich dir helfen konnte. Gibt es noch etwas, worüber du sprechen möchtest?" |};
    {| pattern := {| Re.anchored := false;
                     Re.body := Re.one_of (map Js.lit
                       ["tschüss"; "auf wiedersehen"; "bis später"; "bye"; "ciao"]) |};
       response := Js.lit "Tschüss! Es hat mich gefreut, mit dir zu sprechen. Komm jederzeit wieder, wenn du reden möchtest. Pass gut auf dich auf!" |} ].

Local Close Scope string_scope.

Definition newline : jsstring := [10%N].

Section Service.
Context `{CaseMapping}.

Definition containsConcerningContent (text : jsstring) : bool :=
  let lowerText := toLowerCase text in
  existsb (fun keyword => Js.includes lowerText (toLowerCase keyword))
          CONCERN_KEYWORDS.

Definition generateSafetyResourcesMessage : jsstring :=
  let message :=
    Js.lit "Es ist sehr wichtig und mutig von dir, darüber zu sprechen. " ++
    Js.lit "Ich bin immer für dich da, aber manchmal ist es auch gut, mit einem Erwachsenen zu reden, dem du vertraust. " ++
    Js.lit "Das könnten deine Eltern, ein anderer Verwandter, ein Lehrer oder ein Schulberater sein." ++ newline ++ newline ++
    Js.lit "Hier sind einige Stellen, die dir auch helfen können:" ++ newline ++ newline in
  let message :=
    fold_left (fun message resource =>
      message ++ Js.lit "- **" ++ name resource ++ Js.lit "**: " ++
      description resource ++ Js.lit ". Du erreichst sie unter " ++
      contact resource ++ newline) EMERGENCY_RESOURCES message in
  message ++ newline ++
  Js.lit "Du bist nicht allein, und es ist nicht deine Schuld. Es gibt Menschen, die dir helfen können.".

Definition hasConcerningPattern (messages : list Turn) : bool :=
  let userMessages :=
    slice_last 3 (filter (fun msg => Js.eqb (sender msg) (Js.lit "user")) messages) in
  let concernCount :=
    fold_left (fun count msg =>
      count + (if containsConcerningContent (text msg) then 1 else 0))
      userMessages 0 in
  2 <=? concernCount.

Definition getCachedResponse (responseCache : JsMap.t) (input : jsstring)
  : option jsstring :=
  if JsMap.has responseCache (toLowerCase input) then
    JsMap.get responseCache (toLowerCase input)
  else
    match find (fun item => Re.test (pattern item) input) COMMON_PATTERNS with
    | Some item => Some (response item)
    | None => None
    end.

Definition cacheResponse (responseCache : JsMap.t) (input response : jsstring)
  : JsMap.t :=
  if (3 <? length input) && (length input <? 100)
     && negb (containsConcerningContent input)
  then
    let responseCache := JsMap.set responseCache (toLowerCase input) response in
    if 100 <? JsMap.size responseCache then
      match JsMap.first_key responseCache with
      | Some firstKey => JsMap.delete responseCache firstKey
      | None => responseCache
      end
    else responseCache
  else responseCache.

(** *** The request to [/api/chat] and its race with the 15 s timer *)

(** The parsed JSON body, as far as the client reads it: the fields
    [response] and [error] of an object, which the route sends as strings
    ([None]: the field is absent), or [null]. *)
Inductive json :=
| JsonObject (response error : option jsstring)
| JsonNull.

(** The body of the HTTP response: JSON, or text on which [response.json()]
    rejects with a [SyntaxError] of the given message. *)
Inductive payload :=
| Json (j : json)
| NotJson (syntaxError : jsstring).

(** What [Promise.race([responsePromise, timeoutPromise])] sees first. *)
Inductive fetch_outcome :=
| TimerWins
| FetchRejects (message : jsstring)
| FetchResolves (status : N) (p : payload).

Inductive effect :=
| ConsoleLog (label : jsstring)
| ConsoleError (label : jsstring)
| Fetch (message : jsstring) (messageHistory : list Turn).

Definition ok (status : N) : bool := ((200 <=? status) && (status <=? 299))%N.

Definition or_else (o : option jsstring) (d : jsstring) : jsstring :=
  match o with
  | Some s => if Js.truthy s then s else d
  | None => d
  end.

Definition parse (p : payload) : completion jsstring json :=
  match p with
  | Json j => Return j
  | NotJson m => Throw m
  end.

(** [errorData.error]; reading a property of [null] throws a [TypeError]
    (its message is engine-specific and never inspected). *)
Definition error_field (j : json) : completion jsstring (option jsstring) :=
  match j with
  | JsonObject _ e => Return e
  | JsonNull => Throw (Js.lit "Cannot read properties of null (reading 'error')")
  end.

(** The [.then(response => ...)] callback of the [fetch]. *)
Definition on_response (status : N) (p : payload) : completion jsstring json :=
  if negb (ok status) then
    if (status =? 500)%N then
      try_catch
        (errorData <- parse p ;;
         e <- error_field errorData ;;
         Throw (Js.lit "Server-Fehler: " ++ or_else e (Js.lit "Unbekannter Fehler")))
        (fun _jsonError =>
           Throw (Js.lit "HTTP error! status: " ++ Js.of_N status ++
                  Js.lit " - Serverfehler"))
    else Throw (Js.lit "HTTP error! status: " ++ Js.of_N status)
  else parse p.

Definition race (net : fetch_outcome) : completion jsstring json :=
  match net with
  | TimerWins => Throw (Js.lit "Request timeout")
  | FetchRejects m => Throw m
  | FetchResolves status p => on_response status p
  end.

(** [result && result.response], when truthy. *)
Definition result_response (result : json) : option jsstring :=
  match result with
  | JsonObject (Some r) _ => if Js.truthy r then Some r else None
  | _ => None
  end.

Definition fallbackResponses : list jsstring :=
  [ Js.lit "Entschuldige, ich habe gerade ein Problem. Kannst du das bitte noch einmal sagen?";
    Js.lit "Ich verstehe dich leider gerade nicht so gut. Magst du es anders ausdrücken?";
    Js.lit "Es tut mir leid, aber ich kann gerade nicht richtig antworten. Lass uns in ein paar Minuten noch einmal versuchen zu sprechen.";
    Js.lit "Ich habe gerade technische Schwierigkeiten. Kannst du mir helfen und deine Nachricht noch einmal senden?" ].

(** [a[i]] for an integer [i]. *)
Definition at_index {A} (a : list A) (i : Z) : option A :=
  if (i <? 0)%Z then None else nth_error a (Z.to_nat i).

Definition timeout_reply : jsstring :=
  Js.lit "Es tut mir leid, aber ich brauche gerade etwas länger für die Antwort. Kannst du deine Frage vielleicht etwas anders stellen?".
Definition network_reply : jsstring :=
  Js.lit "Es scheint ein Problem mit der Internetverbindung zu geben. Bitte prüfe deine Verbindung und versuche es noch einmal.".
Definition api_key_reply : jsstring :=
  Js.lit "Es tut mir leid, ich habe ein Problem mit meiner API-Verbindung. Ein Erwachsener sollte den API-Schlüssel in den Umgebungsvariablen überprüfen.".
Definition model_reply : jsstring :=
  Js.lit "Es tut mir leid, ich habe ein Problem mit meinem Sprachmodell. Ein Erwachsener sollte die Konfiguration überprüfen.".
Definition server_reply : jsstring :=
  Js.lit "Es tut mir leid, der Server hat ein Problem. Ein Erwachsener sollte die Serverlogs überprüfen.".
Definition gateway_reply : jsstring :=
  Js.lit "Es tut mir leid, es gibt ein Problem mit der Verbindung zum API-Server. Dies könnte ein vorübergehendes Problem sein. Bitte versuche es in einigen Minuten erneut.".

(** The [catch (error)] block; [random] is the value of [Math.random()]. *)
Definition on_error (message : jsstring) (random : Q) : jsvalue :=
  if Js.eqb message (Js.lit "Request timeout") then VString timeout_reply
  else if Js.includes message (Js.lit "Failed to fetch")
       || Js.includes message (Js.lit "NetworkError") then VString network_reply
  else if Js.includes message (Js.lit "API-Schlüssel")
       || Js.includes message (Js.lit "API key")
       || Js.includes message (Js.lit "Authentifizierungsfehler") then
    VString api_key_reply
  else if Js.includes message (Js.lit "Modellfehler")
       || Js.includes message (Js.lit "model") then VString model_reply
  else if Js.includes message (Js.lit "Server-Fehler")
       || Js.includes message (Js.lit "500") then VString server_reply
  else if Js.includes message (Js.lit "502") then VString gateway_reply
  else
    match at_index fallbackResponses
            (Qfloor (random * inject_Z (Z.of_nat (length fallbackResponses))))
    with
    | Some s => VString s
    | None => VUndefined
    end.

(** The sentences of the [catch] block. *)
Definition failure_replies : list jsstring :=
  [timeout_reply; network_reply; api_key_reply; model_reply; server_reply;
   gateway_reply] ++ fallbackResponses.

(** The body of the [try] after the request is sent: the reply text, or
    the message of the error that reaches the [catch]. *)
Definition attempt (net : fetch_outcome) : completion jsstring jsstring :=
  result <- race net ;;
  match result_response result with
  | Some r => Return r
  | None => Throw (Js.lit "Empty response received")
  end.

(** The outcome of one call: what the caller gets, the module-level cache
    afterwards, and what was logged and requested on the way. *)
Record run := {
  result : completion jsstring jsvalue;
  cache_after : JsMap.t;
  effects : list effect
}.

Definition truthy_reply (o : option jsstring) : option jsstring :=
  match o with
  | Some s => if Js.truthy s then Some s else None
  | None => None
  end.

Definition generateBotResponse (responseCache : JsMap.t)
    (userInput : jsstring) (messageHistory : list Turn)
    (net : fetch_outcome) (random : Q) : run :=
  let isCurrentMessageConcerning := containsConcerningContent userInput in
  let hasConcernPattern := hasConcerningPattern messageHistory in
  if isCurrentMessageConcerning || hasConcernPattern then
    {| result := Return (VString generateSafetyResourcesMessage);
       cache_after := responseCache;
       effects := [ConsoleLog (Js.lit "Concerning content detected in conversation")] |}
  else
    match truthy_reply (getCachedResponse responseCache userInput) with
    | Some cachedResponse =>
        {| result := Return (VString cachedResponse);
           cache_after := responseCache;
           effects := [ConsoleLog (Js.lit "Using cached response")] |}
    | None =>
        let sent :=
          [ConsoleLog (Js.lit "Sending request to API endpoint with message:");
           Fetch userInput (slice_last 5 messageHistory)] in
        let received :=
          match race net with
          | Return _ => [ConsoleLog (Js.lit "Received API response:")]
          | Throw _ => []
          end in
        match attempt net with
        | Return r =>
            {| result := Return (VString r);
               cache_after := cacheResponse responseCache userInput r;
               effects := sent ++ received |}
        | Throw message =>
            {| result := Return (on_error message random);
               cache_after := responseCache;
               effects := sent ++ received ++
                          [ConsoleError (Js.lit "Error generating response:")] |}
        end
    end.

End Service.
End ChatService.

(* ------------------------------------------------------------------ *)
(** ** The [/api/chat] route (server side)

    What [src/pages/api/chat.js] and [src/unnamed/part_000] have in common:
    the constants, the request and reply types, the outcome of the call to
    the completion service, and [isSafeResponse]. *)

Module Route.

Local Open Scope string_scope.

(** The lines of the template literal [CHILD_SAFE_SYSTEM_PROMPT]. *)
Definition CHILD_SAFE_SYSTEM_PROMPT_lines : list jsstring := map Js.lit
  [ "You are KinderSchutz-Bot, a friendly and supportive assistant designed specifically for children.";
    "Your role is to provide a safe space for children to discuss their experiences and concerns, particularly sensitive topics like experiences of sexual violence in sports, clubs, or schools.";
    String.EmptyString;
    "IMPORTANT SAFETY GUIDELINES:";
    "1. Always maintain child-appropriate language and tone";
    "2. Be supportive and empathetic but never judgmental";
    "3. Never ask for or store personal identifying information";
    "4. Recognize signs of distress or danger and provide appropriate resources";
    "5. Encourage children to speak with trusted adults when appropriate";
    "6. Prioritize child safety and well-being above all else";
    "7. Respond in the same language the child is using (German or English)";
    "8. Keep responses brief and easy to understand - use short paragraphs and simple language";
    "9. Be patient and give clear, concrete advice when needed";
    String.EmptyString;
    "If a child discloses information suggesting they are in danger or have experienced abuse:";
    "- Validate their feelings and courage in sharing";
    "- Provide age-appropriate support resources";
    "- Gently encourage them to talk to a trusted adult";
    "- Never minimize their experiences or suggest they are at fault" ].

Local Close Scope string_scope.

Fixpoint join (sep : jsstring) (lines : list jsstring) : jsstring :=
  match lines with
  | [] => []
  | [l] => l
  | l :: rest => l ++ sep ++ join sep rest
  end.

Definition CHILD_SAFE_SYSTEM_PROMPT : jsstring :=
  join [10%N] CHILD_SAFE_SYSTEM_PROMPT_lines.

(** [req]: the method and the two fields read from [req.body]. *)
Record Request := {
  method : jsstring;
  message : option jsstring;
  messageHistory : option (list Turn)
}.

Record ChatMessage := { role : jsstring; content : jsstring }.

(** The JSON sent with [res.status(n).json(...)]. *)
Inductive body :=
| Chat (response source : jsstring)
| Problem (error : jsstring).

Record Reply := { status : N; json : body }.

(** A thrown value, as far as the handlers inspect it: [name], [code],
    [message] and, for an error of the HTTP client, [response.status],
    [response.data.error.type] and [response.data.error.message]. *)
Record ErrorResponse := {
  response_status : N;
  data_error_type : option jsstring;
  data_error_message : option jsstring
}.

Record JsError := {
  name : jsstring;
  code : option jsstring;
  error_message : jsstring;
  response : option ErrorResponse
}.

(** [new Error(message)] *)
Definition Error (message : jsstring) : JsError :=
  {| name := Js.lit "Error"; code := None; error_message := message;
     response := None |}.

Definition TypeError (message : jsstring) : JsError :=
  {| name := Js.lit "TypeError"; code := None; error_message := message;
     response := None |}.

Definition ReferenceError (message : jsstring) : JsError :=
  {| name := Js.lit "ReferenceError"; code := None; error_message := message;
     response := None |}.

(** The outcome of [axios.post] followed by the read of
    [response.data.choices[0].message.content]: the content when it is a
    string; a [TypeError] when the reply has another shape; or the error
    the HTTP client rejects with. *)
Inductive remote_outcome :=
| Resolves (content : jsstring)
| Malformed (typeError : jsstring)
| Rejects (e : JsError).

(** One call of a handler: what is sent back (or the error the handler
    rejects with), the module-level cache afterwards, and the messages
    posted to the completion service, if a request was made. *)
Record outcome := {
  reply : completion JsError Reply;
  cache_after : JsMap.t;
  posted : option (list ChatMessage)
}.

Definition respond (status : N) (b : body) (cache : JsMap.t)
    (posted : option (list ChatMessage)) : outcome :=
  {| reply := Return {| status := status; json := b |};
     cache_after := cache; posted := posted |}.

(** The key of the route's cache: [`${message}:${n}`]. *)
Definition cacheKey (message : jsstring) (messageHistory : option (list Turn))
  : jsstring :=
  message ++ Js.lit ":" ++
  Js.of_nat (match messageHistory with Some h => length h | None => 0 end).

(** The conversation in the format of the completion service. *)
Definition messages_for (message : jsstring)
    (messageHistory : option (list Turn)) : list ChatMessage :=
  [{| role := Js.lit "system"; content := CHILD_SAFE_SYSTEM_PROMPT |}] ++
  match messageHistory with
  | Some h =>
      map (fun msg =>
             {| role := if Js.eqb (sender msg) (Js.lit "user")
                        then Js.lit "user" else Js.lit "assistant";
                content := text msg |})
          (slice_last 5 h)
  | None => []
  end ++
  [{| role := Js.lit "user"; content := message |}].

(** [!process.env.DEEPSEEK_API_KEY || process.env.DEEPSEEK_API_KEY.trim() === ''] *)
Definition credential_missing (DEEPSEEK_API_KEY : option jsstring) : bool :=
  match DEEPSEEK_API_KEY with
  | None => true
  | Some k => negb (Js.truthy k) || Js.eqb (Js.trim k) []
  end.

Definition safeResponse : jsstring :=
  Js.lit "Es tut mir leid, ich kann auf diese Frage nicht antworten. Lass uns über etwas anderes sprechen. Wie war dein Tag heute?".
Definition timeout_response : jsstring :=
  Js.lit "Es tut mir leid, ich brauche etwas länger zum Nachdenken. Könntest du deine Frage vielleicht etwas einfacher stellen?".
Definition api_key_response : jsstring :=
  Js.lit "Es tut mir leid, ich habe ein Problem mit meiner API-Verbindung. Ein Erwachsener sollte den API-Schlüssel in den Umgebungsvariablen überprüfen.".

Definition unsafePatterns : list Re.RegExp :=
  map (fun r => {| Re.anchored := false; Re.body := r |})
  [ Re.Then (Re.Chars (Js.lit "sex"))
      (Re.NotFollowedBy
         (Re.one_of [Js.lit "ual violence"; Js.lit "ual abuse";
                     Js.lit "ual harassment"]));
    Re.Chars (Js.lit "porn");
    Re.Chars (Js.lit "explicit");
    Re.Chars (Js.lit "adult content");
    Re.Chars (Js.lit "nicht für kinder");
    Re.Chars (Js.lit "not appropriate for children");
    Re.Chars (Js.lit "kill yourself");
    Re.Chars (Js.lit "self-harm");
    Re.Chars (Js.lit "suicide") ].

Section Filter.
Context `{CaseMapping}.

Definition isSafeResponse (text : jsstring) : bool :=
  negb (existsb (fun pattern => Re.test pattern text) unsafePatterns).

(** The branch of both handlers after [botResponse] is read. *)
Definition deliver (responseCache : JsMap.t) (key botResponse : jsstring)
    (posted : option (list ChatMessage)) : outcome :=
  if isSafeResponse botResponse then
    let responseCache := JsMap.set responseCache key botResponse in
    let responseCache :=
      if 100 <? JsMap.size responseCache then
        match JsMap.first_key responseCache with
        | Some oldestKey => JsMap.delete responseCache oldestKey
        | None => responseCache
        end
      else responseCache in
    respond 200 (Chat botResponse (Js.lit "api")) responseCache posted
  else
    let responseCache := JsMap.set responseCache key safeResponse in
    respond 200 (Chat safeResponse (Js.lit "fallback")) responseCache posted.

End Filter.
End Route.

(** A string that is present and truthy: [!message] is false. *)
Definition present (o : option jsstring) : option jsstring :=
  match o with
  | Some s => if Js.truthy s then Some s else None
  | None => None
  end.

Definition option_eqb (o : option jsstring) (s : jsstring) : bool :=
  match o with
  | Some x => Js.eqb x s
  | None => false
  end.

(* ------------------------------------------------------------------ *)
(** ** The handler of [src/unnamed/part_000] *)

Module Part000.
Import Route.

Section Handler.
Context `{CaseMapping}.

(** The outer [catch (error)]: always a 200 reply with source ['error']. *)
Definition on_error (error : JsError) (responseCache : JsMap.t)
    (posted : option (list ChatMessage)) : outcome :=
  let errorResponse :=
    if Js.includes (error_message error) (Js.lit "API key") then
      api_key_response
    else if Js.includes (error_message error) (Js.lit "network") then
      Js.lit "Es scheint ein Netzwerkproblem zu geben. Bist du mit dem Internet verbunden?"
    else
      Js.lit "Es tut mir leid, ich habe gerade ein technisches Problem. Kannst du es in ein paar Minuten noch einmal versuchen?" in
  respond 200 (Chat errorResponse (Js.lit "error")) responseCache posted.

Definition handler (responseCache : JsMap.t)
    (DEEPSEEK_API_KEY : option jsstring) (req : Request)
    (remote : remote_outcome) : outcome :=
  if negb (Js.eqb (method req) (Js.lit "POST")) then
    respond 405 (Problem (Js.lit "Method not allowed")) responseCache None
  else
    match present (message req) with
    | None =>
        respond 400 (Problem (Js.lit "Message is required")) responseCache None
    | Some message =>
        let cacheKey := cacheKey message (messageHistory req) in
        match JsMap.get responseCache cacheKey with
        | Some cached =>
            respond 200 (Chat cached (Js.lit "cache")) responseCache None
        | None =>
            let messages := messages_for message (messageHistory req) in
            let posted :=
              if credential_missing DEEPSEEK_API_KEY then None
              else Some messages in
            let attempt : completion JsError jsstring :=
              if credential_missing DEEPSEEK_API_KEY then
                Throw (Error (Js.lit "Missing API key"))
              else
                match remote with
                | Resolves content => Return content
                | Malformed m => Throw (TypeError m)
                | Rejects e => Throw e
                end in
            match attempt with
            | Return botResponse =>
                deliver responseCache cacheKey botResponse posted
            | Throw axiosError =>
                if Js.eqb (name axiosError) (Js.lit "AbortError")
                   || option_eqb (code axiosError) (Js.lit "ECONNABORTED")
                then
                  respond 200 (Chat timeout_response (Js.lit "timeout"))
                          responseCache posted
                else if match response axiosError with
                        | Some r => (response_status r =? 401)%N
                        | None => false
                        end
                then
                  respond 200 (Chat api_key_response (Js.lit "auth_error"))
                          responseCache posted
                else on_error axiosError responseCache posted
            end
        end
    end.

End Handler.
End Part000.

(* ------------------------------------------------------------------ *)
(** ** The handler of [src/pages/api/chat.js] *)

Module ChatJs.
Import Route.

(** The [catch] of [handleApiRequest]: what it throws for the error
    [axios.post] rejected with. *)
Definition handleApiRequest_rethrows (error : JsError) : JsError :=
  if match response error with
     | Some r => (response_status r =? 401)%N || (response_status r =? 403)%N
     | None => false
     end
  then Error (Js.lit "API-Authentifizierungsfehler: Bitte überprüfen Sie den API-Schlüssel")
  else if match response error with
          | Some r =>
              option_eqb (data_error_type r) (Js.lit "invalid_request_error")
              && match data_error_message r with
                 | Some m => Js.includes m (Js.lit "model")
                 | None => false
                 end
          | None => false
          end
  then Error (Js.lit "API-Modellfehler: Bitte überprüfen Sie den Modellnamen")
  else error.

(** The reply the outer [catch] builds after its first statement. *)
Definition error_reply (error : JsError) : Reply :=
  let errorMessage :=
    if Js.includes (error_message error) (Js.lit "API-Authentifizierungsfehler") then
      Js.lit "Es tut mir leid, ich habe ein Problem mit meiner API-Verbindung. Der API-Schlüssel scheint ungültig zu sein oder fehlt. Ein Erwachsener sollte den API-Schlüssel in den Umgebungsvariablen überprüfen."
    else if Js.includes (error_message error) (Js.lit "API-Modellfehler") then
      Js.lit "Es tut mir leid, ich habe ein Problem mit meiner API-Verbindung. Das verwendete Modell scheint nicht verfügbar zu sein. Ein Erwachsener sollte die Konfiguration überprüfen."
    else if Js.includes (error_message error) (Js.lit "timeout") then
      Js.lit "Es tut mir leid, ich brauche gerade zu lange, um zu antworten. Bitte versuche es später noch einmal."
    else if Js.includes (error_message error) (Js.lit "Network Error") then
      Js.lit "Es tut mir leid, ich habe ein Problem mit meiner Internetverbindung. Bitte überprüfe deine Verbindung und versuche es später noch einmal."
    else api_key_response in
  {| status := 500; json := Problem errorMessage |}.

(** The outer [catch (error)] begins with [clearTimeout(timeoutId)].
    [timeoutId] is a [const] of the [try] block; the [catch] block is
    outside its scope and the module binds no other [timeoutId], so
    evaluating the identifier throws a [ReferenceError] and the rest of the
    block does not run. *)
Definition timeoutId_in_catch : completion JsError unit :=
  Throw (ReferenceError (Js.lit "timeoutId is not defined")).

Definition on_error (error : JsError) : completion JsError Reply :=
  _ <- timeoutId_in_catch ;;
  Return (error_reply error).

Section Handler.
Context `{CaseMapping}.

Definition handler (responseCache : JsMap.t)
    (DEEPSEEK_API_KEY : option jsstring) (req : Request)
    (remote : remote_outcome) : outcome :=
  if negb (Js.eqb (method req) (Js.lit "POST")) then
    respond 405 (Problem (Js.lit "Method not allowed")) responseCache None
  else
    match present (message req) with
    | None =>
        respond 400 (Problem (Js.lit "Message is required")) responseCache None
    | Some message =>
        let cacheKey := cacheKey message (messageHistory req) in
        match JsMap.get responseCache cacheKey with
        | Some cached =>
            respond 200 (Chat cached (Js.lit "cache")) responseCache None
        | None =>
            let messages := messages_for message (messageHistory req) in
            let posted :=
              if credential_missing DEEPSEEK_API_KEY then None
              else Some messages in
            let attempt : completion JsError jsstring :=
              if credential_missing DEEPSEEK_API_KEY then
                Throw (Error (Js.lit "Missing API key"))
              else
                match remote with
                | Resolves content => Return content
                | Malformed m => Throw (TypeError m)
                | Rejects e => Throw (handleApiRequest_rethrows e)
                end in
            match attempt with
            | Return botResponse =>
                deliver responseCache cacheKey botResponse posted
            | Throw axiosError =>
                if Js.eqb (name axiosError) (Js.lit "AbortError")
                   || option_eqb (code axiosError) (Js.lit "ECONNABORTED")
                then
                  respond 200 (Chat timeout_response (Js.lit "timeout"))
                          responseCache posted
                else if match response axiosError with
                        | Some r => (response_status r =? 401)%N
                        | None => false
                        end
                then
                  respond 200 (Chat api_key_response (Js.lit "auth_error"))
                          responseCache posted
                else
                  {| reply := on_error axiosError;
                     cache_after := responseCache;
                     posted := posted |}
            end
        end
    end.

End Handler.
End ChatJs.

(* ------------------------------------------------------------------ *)
(** ** Where the two handlers part

    Both handlers answer alike until the call to the completion service
    fails.  [reaches_error_path] says that a request, in a given state, ends
    in a failure that [part_000] and [chat.js] treat differently: the
    credential is missing, the reply of the service has an unexpected shape,
    or the call is rejected with an error that is not an abort passed through
    by [handleApiRequest] unchanged. *)

Definition aborted (e : Route.JsError) : bool :=
  Js.eqb (Route.name e) (Js.lit "AbortError")
  || option_eqb (Route.code e) (Js.lit "ECONNABORTED").

Definition has_status (e : Route.JsError) (n : N) : bool :=
  match Route.response e with
  | Some r => (Route.response_status r =? n)%N
  | None => false
  end.

Definition is_model_error (e : Route.JsError) : bool :=
  match Route.response e with
  | Some r =>
      option_eqb (Route.data_error_type r) (Js.lit "invalid_request_error")
      && match Route.data_error_message r with
         | Some m => Js.includes m (Js.lit "model")
         | None => false
         end
  | None => false
  end.

Definition reaches_error_path (responseCache : JsMap.t)
    (DEEPSEEK_API_KEY : option jsstring) (req : Route.Request)
    (remote : Route.remote_outcome) : bool :=
  Js.eqb (Route.method req) (Js.lit "POST")
  && match present (Route.message req) with
     | None => false
     | Some message =>
         match JsMap.get responseCache
                 (Route.cacheKey message (Route.messageHistory req)) with
         | Some _ => false
         | None =>
             Route.credential_missing DEEPSEEK_API_KEY
             || match remote with
                | Route.Resolves _ => false
                | Route.Malformed _ => true
                | Route.Rejects e =>
                    negb (aborted e)
                    || (has_status e 401 || has_status e 403 || is_model_error e)
                end
         end
     end.

(* ------------------------------------------------------------------ *)
(** ** From the route to the client

    The reply of the route as the [fetch] of the client sees it when it
    arrives before the timer fires. *)

Definition delivered (r : Route.Reply) : ChatService.fetch_outcome :=
  ChatService.FetchResolves (Route.status r)
    (ChatService.Json
       match Route.json r with
       | Route.Chat response _ => ChatService.JsonObject (Some response) None
       | Route.Problem error => ChatService.JsonObject None (Some error)
       end).

(** The request that the [fetch] of the client makes: POST, with the input
    and the last five turns of the conversation in the body. *)
Definition posted_request (userInput : jsstring) (messageHistory : list Turn)
  : Route.Request :=
  {| Route.method := Js.lit "POST";
     Route.message := Some userInput;
     Route.messageHistory := Some (slice_last 5 messageHistory) |}.

(* ------------------------------------------------------------------ *)
(** ** Reachable states of the client cache

    The module-level [responseCache] starts as an empty [Map] and changes
    only inside [generateBotResponse]. *)

Inductive reachable `{CaseMapping} : JsMap.t -> Prop :=
| reachable_init : reachable []
| reachable_call cache userInput history net random :
    reachable cache ->
    reachable (ChatService.cache_after
                 (ChatService.generateBotResponse cache userInput history net random)).

(** The pattern [r] matches at none of the seven positions inside the word
    ["sexual "] of the text ["sexual abuse" ++ post]. *)
Definition quiet `{CaseMapping} (r : Re.re) (post : jsstring) : bool :=
  let w := Js.lit "abuse" ++ post in
  forallb (fun y => negb (Re.matches_here Re.folded r (y ++ w)))
    [Js.lit "sexual "; Js.lit "exual "; Js.lit "xual "; Js.lit "ual ";
     Js.lit "al "; Js.lit "l "; Js.lit " "].

(** A key that [cacheResponse] can have stored: the lower-cased form of an
    input that passes its test. *)
Definition admitted_key `{CaseMapping} (key : jsstring) : Prop :=
  exists input, key = toLowerCase input /\ 4 <= length input <= 99
                /\ ChatService.containsConcerningContent input = false.

(** The effects of the chat service that are requests to the route. *)
Definition is_request (e : ChatService.effect) : bool :=
  match e with
  | ChatService.Fetch _ _ => true
  | _ => false
  end.

(** The tests of the [catch] block of [generateBotResponse], in its order:
    the number of the first one that the message passes, or [None] when the
    message falls through to the generic sentences. *)
Definition classification (message : jsstring) : option nat :=
  if Js.eqb message (Js.lit "Request timeout") then Some 0
  else if Js.includes message (Js.lit "Failed to fetch")
       || Js.includes message (Js.lit "NetworkError") then Some 1
  else if Js.includes message (Js.lit "API-Schlüssel")
       || Js.includes message (Js.lit "API key")
       || Js.includes message (Js.lit "Authentifizierungsfehler") then Some 2
  else if Js.includes message (Js.lit "Modellfehler")
       || Js.includes message (Js.lit "model") then Some 3
  else if Js.includes message (Js.lit "Server-Fehler")
       || Js.includes message (Js.lit "500") then Some 4
  else if Js.includes message (Js.lit "502") then Some 5
  else None.

(** The message of the error for a response that is not [ok] and not a
    500. *)
Definition http_error_message (status : N) : jsstring :=
  Js.lit "HTTP error! status: " ++ Js.of_N status.

(** Every three-digit status but 500 and 502 gives a message that no test
    of the [catch] block passes; 502 passes the last one only. *)
Definition statuses_fall_through : bool :=
  forallb (fun n =>
             let status := N.of_nat n in
             match classification (http_error_message status) with
             | None => negb (status =? 500)%N && negb (status =? 502)%N
             | Some 5 => (status =? 502)%N
             | Some 4 => (status =? 500)%N
             | Some _ => false
             end)
          (seq 100 900).

(* ------------------------------------------------------------------ *)
(** ** The rest of [chat.js]: [checkApiKey] *)

Module ChatJsMore.

(** [checkApiKey()]: the value it returns and the line it logs.  When the
    key is there the log shows its first five code units. *)
Definition checkApiKey (DEEPSEEK_API_KEY : option jsstring) : bool * jsstring :=
  match DEEPSEEK_API_KEY with
  | None => (false, Js.lit "API-Schlüssel fehlt vollständig")
  | Some apiKey =>
      if negb (Js.truthy apiKey) then
        (false, Js.lit "API-Schlüssel fehlt vollständig")
      else if Js.eqb (Js.trim apiKey) [] then
        (false, Js.lit "API-Schlüssel ist leer")
      else
        (true, Js.lit "API-Schlüssel vorhanden:" ++ Js.lit " "
               ++ firstn 5 apiKey ++ Js.lit "...")
  end.

End ChatJsMore.

(* ------------------------------------------------------------------ *)
(** ** Reachable states of the cache of the route

    The [responseCache] of [chat.js] starts empty and changes only inside
    the handler. *)

Inductive route_reachable `{CaseMapping} : JsMap.t -> Prop :=
| route_init : route_reachable []
| route_call cache key req remote :
    route_reachable cache ->
    route_reachable (Route.cache_after (ChatJs.handler cache key req remote)).

(** A run of the route: [n] POSTs with pairwise different messages (the
    letter x once, twice, ...) and no history, each answered by the
    completion service with a text that the filter rejects. *)
Definition rejected_post (n : nat) : Route.Request :=
  {| Route.method := Js.lit "POST";
     Route.message := Some (repeat 120%N (S n));
     Route.messageHistory := None |}.

Fixpoint after_rejected_posts `{CaseMapping} (n : nat) : JsMap.t :=
  match n with
  | O => []
  | S n' =>
      Route.cache_after
        (ChatJs.handler (after_rejected_posts n') (Some (Js.lit "sk-1"))
           (rejected_post n') (Route.Resolves (Js.lit "porn")))
  end.

(* ------------------------------------------------------------------ *)
(** ** The page ([src/pages/index.js]): sending a message

    Of the component state only what [handleSendMessage] and the typing
    animation read or write is kept; of a message only [sender], [text]
    and [isError] ([id] and [isRead] are never read by this code). *)

Module Home.

Record Message := {
  msg_sender : jsstring;
  msg_text : jsstring;
  isError : bool
}.

(** The message as [generateBotResponse] reads it. *)
Definition as_turn (m : Message) : Turn :=
  {| sender := msg_sender m; text := msg_text m |}.

(** [s.split(sep)] for a separator of one code unit. *)
Fixpoint split (sep : N) (s : jsstring) : list jsstring :=
  match s with
  | [] => [[]]
  | c :: r =>
      if (c =? sep)%N then [] :: split sep r
      else match split sep r with
           | w :: ws => (c :: w) :: ws
           | [] => [[c]]
           end
  end.

Definition space : N := 32.
Definition typingSpeed : nat := 20.

(** The loop that reveals the response word by word: the texts passed to
    [setTypingText] and the delays waited before each, from word [i] on. *)
Fixpoint reveal_from (i : nat) (visibleResponse : jsstring)
    (words : list jsstring) : list (nat * jsstring) :=
  match words with
  | [] => []
  | w :: rest =>
      let visibleResponse :=
        visibleResponse ++ (if 0 <? i then [space] else []) ++ w in
      (length w * typingSpeed, visibleResponse)
        :: reveal_from (S i) visibleResponse rest
  end.

Definition reveal (response : jsstring) : list (nat * jsstring) :=
  reveal_from 0 [] (split space response).

(** What the loop puts before word [i]. *)
Definition lead (i : nat) : jsstring := if 0 <? i then [space] else [].

(** The updater of the dots timer: [prev => prev.length >= 3 ? '' : prev + '.'] *)
Definition next_dots (prev : jsstring) : jsstring :=
  if 3 <=? length prev then [] else prev ++ Js.lit ".".

Record State := {
  input : jsstring;
  messages : list Message;
  error : option jsstring;
  showSuggestions : bool
}.

(** One run of [handleSendMessage]: the state afterwards, the cache of the
    chat service afterwards, the texts shown while typing, and the effects
    of the chat service. *)
Record sent := {
  state_after : State;
  service_cache : JsMap.t;
  typed : list jsstring;
  service_effects : list ChatService.effect
}.

Definition technical_problem : jsstring :=
  Js.lit "Es tut mir leid, ich habe gerade ein technisches Problem. Kannst du es in ein paar Minuten noch einmal versuchen?".

Section Send.
Context `{CaseMapping}.

Definition handleSendMessage (st : State) (responseCache : JsMap.t)
    (net : ChatService.fetch_outcome) (random : Q) : sent :=
  if Js.eqb (Js.trim (input st)) [] then
    {| state_after := st; service_cache := responseCache;
       typed := []; service_effects := [] |}
  else
    let userMessage :=
      {| msg_sender := Js.lit "user"; msg_text := input st; isError := false |} in
    let call :=
      ChatService.generateBotResponse responseCache (msg_text userMessage)
        (map as_turn (messages st)) net random in
    match ChatService.result call with
    | Return (VString response) =>
        let botMessage :=
          {| msg_sender := Js.lit "bot"; msg_text := response; isError := false |} in
        {| state_after :=
             {| input := [];
                messages := (messages st ++ [userMessage]) ++ [botMessage];
                error := None;
                showSuggestions := false |};
           service_cache := ChatService.cache_after call;
           typed := Js.lit "Ich denke nach" :: map snd (reveal response);
           service_effects := ChatService.effects call |}
    | _ =>
        (* a rejected call, or [response.split] on [undefined]: the [catch] *)
        let errorMessage :=
          {| msg_sender := Js.lit "bot"; msg_text := technical_problem;
             isError := true |} in
        {| state_after :=
             {| input := [];
                messages := (messages st ++ [userMessage]) ++ [errorMessage];
                error := Some (Js.lit "Es gab ein Problem mit der Verbindung. Bitte versuche es später erneut.");
                showSuggestions := false |};
           service_cache := ChatService.cache_after call;
           typed := [Js.lit "Ich denke nach"];
           service_effects := ChatService.effects call |}
    end.

End Send.
End Home.

(* ------------------------------------------------------------------ *)
(** ** Sample inputs

    Concrete conversations, replies and requests at which the properties
    below are evaluated, with the Latin-1 tables. *)

Module Sample.
Import ChatService Latin1Facts.

Definition weather : jsstring := Js.lit "Wie wird das Wetter morgen?".

Definition sunny : fetch_outcome :=
  FetchResolves 200
    (Json (JsonObject (Some (Js.lit "Morgen scheint die Sonne.")) None)).

Definition empty_reply : fetch_outcome :=
  FetchResolves 200 (Json (JsonObject None None)).

Definition user (s : jsstring) : Turn := {| sender := Js.lit "user"; text := s |}.
Definition bot (s : jsstring) : Turn := {| sender := Js.lit "bot"; text := s |}.

(** Two concerning user turns, then three harmless ones. *)
Definition conversation : list Turn :=
  [user (Js.lit "Ich habe Angst"); bot (Js.lit "Was ist los?");
   user (Js.lit "Mein Trainer droht mir"); bot (Js.lit "Das tut mir leid");
   user (Js.lit "Magst du Pizza?"); user (Js.lit "Und Nudeln?");
   bot (Js.lit "Ja"); user (Js.lit "Ich auch")].

(** The cache after one answered call from the empty cache. *)
Definition after_one_call : JsMap.t :=
  cache_after (generateBotResponse [] weather [] sunny 0).

(** The cache after a hundred answered calls with distinct inputs. *)
Definition question (n : nat) : jsstring := Js.lit "Frage Nummer " ++ Js.of_nat n.

Definition after_calls (inputs : list jsstring) (cache : JsMap.t) : JsMap.t :=
  fold_left (fun c input => cache_after (generateBotResponse c input [] sunny 0))
            inputs cache.

Definition full_cache : JsMap.t := after_calls (map question (seq 0 100)) [].

(** A request to the route with a message that is concerning. *)
Definition disclosure : Route.Request :=
  {| Route.method := Js.lit "POST";
     Route.message := Some (Js.lit "Mein Trainer hat mich angefasst");
     Route.messageHistory := Some [] |}.

Definition credential : option jsstring := Some (Js.lit "sk-0123456789").

(** The request posted while the service answers, and posted again while
    the credential is gone and the network is down. *)
Definition first_post : Route.outcome :=
  ChatJs.handler [] credential disclosure
    (Route.Resolves (Js.lit "Das ist nicht in Ordnung.")).

Definition second_post : Route.outcome :=
  ChatJs.handler (Route.cache_after first_post) None disclosure
    (Route.Rejects (Route.Error (Js.lit "Network Error"))).

(** The same request while the call to the service is aborted, and then
    again while the service answers. *)
Definition abortError : Route.JsError :=
  {| Route.name := Js.lit "AbortError"; Route.code := None;
     Route.error_message := Js.lit "The operation was aborted";
     Route.response := None |}.

Definition aborted_post : Route.outcome :=
  ChatJs.handler [] credential disclosure (Route.Rejects abortError).

Definition post_after_abort : Route.outcome :=
  ChatJs.handler (Route.cache_after aborted_post) credential disclosure
    (Route.Resolves (Js.lit "Das ist nicht in Ordnung.")).

(** A call that gets an empty response, for a value of [Math.random()]. *)
Definition empty_call (random : Q) : completion jsstring jsvalue :=
  result (generateBotResponse [] weather [] empty_reply random).

(** Another call that gets an empty response: [null] as the body. *)
Definition null_reply : fetch_outcome := FetchResolves 200 (Json JsonNull).

Definition null_call : completion jsstring jsvalue :=
  result (generateBotResponse after_one_call (question 7)
            [bot (Js.lit "Was ist los?")] null_reply (1#2)).

(** The page as it starts, with a question typed in. *)
Definition welcome : Home.Message :=
  {| Home.msg_sender := Js.lit "bot";
     Home.msg_text := Js.lit "Hallo! Ich bin KinderSchutz-Bot. Du kannst mit mir über alles reden, was dich beschäftigt. Wie geht es dir heute?";
     Home.isError := false |}.

Definition page : Home.State :=
  {| Home.input := weather; Home.messages := [welcome];
     Home.error := None; Home.showSuggestions := true |}.

(** The reply of the route to the question when the service answers. *)
Definition forecast : Route.Reply :=
  {| Route.status := 200;
     Route.json := Route.Chat (Js.lit "Morgen scheint die Sonne.") (Js.lit "api") |}.

End Sample.

(* ================================================================== *)
(** * Properties *)

Unset Implicit Arguments.

(** ** Strings and maps *)

Lemma eqb_eq (a b : jsstring) : Js.eqb a b = true <-> a = b.
Proof.
  revert b. induction a as [|x a IH]; intros [|y b]; simpl; split;
    try discriminate; try reflexivity.
  - intros E. apply andb_prop in E as [E1 E2].
    apply N.eqb_eq in E1. apply IH in E2. congruence.
  - intros E. injection E as -> ->. rewrite N.eqb_refl. simpl. now apply IH.
Qed.

Lemma eqb_refl (a : jsstring) : Js.eqb a a = true.
Proof. now apply eqb_eq. Qed.

Lemma eqb_neq (a b : jsstring) : Js.eqb a b = false <-> a <> b.
Proof.
  split.
  - intros E ->. rewrite eqb_refl in E. discriminate.
  - intros E. destruct (Js.eqb a b) eqn:F; [|reflexivity].
    apply eqb_eq in F. contradiction.
Qed.

Module JsMapFacts.
Import JsMap.

Lemma get_set_same (m : t) (k v : jsstring) : get (set m k v) k = Some v.
Proof.
  induction m as [|[k' v'] r IH]; simpl.
  - now rewrite eqb_refl.
  - destruct (Js.eqb k' k) eqn:E; simpl; rewrite E; [reflexivity|exact IH].
Qed.

Lemma get_set_other (m : t) (k v k' : jsstring) :
  k <> k' -> get (set m k v) k' = get m k'.
Proof.
  intros Hne. induction m as [|[k0 v0] r IH]; simpl.
  - apply eqb_neq in Hne. now rewrite Hne.
  - destruct (Js.eqb k0 k) eqn:E; simpl.
    + apply eqb_eq in E. subst k0.
      apply eqb_neq in Hne. now rewrite Hne.
    + destruct (Js.eqb k0 k'); [reflexivity|exact IH].
Qed.

Lemma get_none_keys (m : t) (k : jsstring) :
  get m k = None <-> ~ In k (keys m).
Proof.
  induction m as [|[k' v'] r IH]; simpl.
  - tauto.
  - destruct (Js.eqb k' k) eqn:E.
    + apply eqb_eq in E. split; [discriminate|]. intros Hn. exfalso. tauto.
    + apply eqb_neq in E. rewrite IH. tauto.
Qed.

(** Setting a key that is absent appends the entry. *)
Lemma set_absent (m : t) (k v : jsstring) :
  get m k = None -> set m k v = m ++ [(k, v)].
Proof.
  induction m as [|[k' v'] r IH]; simpl; [reflexivity|].
  destruct (Js.eqb k' k); [discriminate|].
  intros Hn. now rewrite IH.
Qed.

(** Setting a key that is present keeps the number and order of keys. *)
Lemma set_present (m : t) (k v : jsstring) :
  get m k <> None -> keys (set m k v) = keys m.
Proof.
  induction m as [|[k' v'] r IH]; simpl; [congruence|].
  destruct (Js.eqb k' k); simpl; [reflexivity|].
  intros Hn. now rewrite IH.
Qed.

Lemma size_keys (m : t) : size m = length (keys m).
Proof. unfold size, keys. now rewrite length_map. Qed.

Lemma size_set (m : t) (k v : jsstring) :
  size (set m k v) = match get m k with Some _ => size m | None => S (size m) end.
Proof.
  destruct (get m k) eqn:E.
  - rewrite !size_keys, set_present; congruence.
  - rewrite set_absent by assumption. unfold size.
    rewrite length_app. simpl. lia.
Qed.

Lemma in_set (m : t) (k v : jsstring) (e : jsstring * jsstring) :
  In e (set m k v) -> In e m \/ e = (fst e, v) /\ (fst e = k \/ In (fst e) (keys m)).
Proof.
  induction m as [|[k' v'] r IH]; simpl.
  - intros [<-|[]]. right. simpl. tauto.
  - destruct (Js.eqb k' k) eqn:E; simpl.
    + intros [<-|Hin]; [|tauto]. right. simpl. tauto.
    + intros [<-|Hin]; [tauto|]. destruct (IH Hin) as [?|[? [?|?]]]; tauto.
Qed.

Lemma in_keys_set (m : t) (k v k' : jsstring) :
  In k' (keys (set m k v)) -> k' = k \/ In k' (keys m).
Proof.
  destruct (get m k) eqn:E.
  - rewrite set_present by congruence. tauto.
  - rewrite set_absent by assumption. unfold keys. rewrite map_app, in_app_iff.
    simpl. intuition.
Qed.

Lemma in_delete (m : t) (k : jsstring) (e : jsstring * jsstring) :
  In e (delete m k) -> In e m.
Proof.
  induction m as [|[k' v'] r IH]; simpl; [tauto|].
  destruct (Js.eqb k' k); simpl; intuition.
Qed.

Lemma get_delete_other (m : t) (k k' : jsstring) :
  k <> k' -> get (delete m k) k' = get m k'.
Proof.
  intros Hne. induction m as [|[k0 v0] r IH]; simpl; [reflexivity|].
  destruct (Js.eqb k0 k) eqn:E; simpl.
  - apply eqb_eq in E. subst k0. apply eqb_neq in Hne. now rewrite Hne.
  - destruct (Js.eqb k0 k'); [reflexivity|exact IH].
Qed.

(** Deleting the first key removes the head entry and nothing else. *)
Lemma delete_first (m : t) (e : jsstring * jsstring) (r : t) :
  m = e :: r -> first_key m = Some (fst e) /\ delete m (fst e) = r.
Proof.
  intros ->. destruct e as [k v]. simpl. now rewrite eqb_refl.
Qed.

Lemma size_set_bounded (m : t) (k v : jsstring) :
  size m <= 100 -> size (set_bounded m k v) <= 100.
Proof.
  intros Hm. unfold set_bounded.
  pose proof (size_set m k v) as Hs.
  destruct (Nat.ltb_spec 100 (size (set m k v))) as [Hgt|Hle]; [|exact Hle].
  destruct (set m k v) as [|e r] eqn:E; simpl.
  - lia.
  - destruct e as [k0 v0]. simpl. rewrite eqb_refl.
    unfold size in *. simpl in *. destruct (get m k); lia.
Qed.

Lemma in_set_bounded (m : t) (k v : jsstring) (e : jsstring * jsstring) :
  In e (set_bounded m k v) -> In e (set m k v).
Proof.
  unfold set_bounded. destruct (100 <? size (set m k v)); [|tauto].
  destruct (first_key (set m k v)); [apply in_delete|tauto].
Qed.

(** At the bound, a new key evicts exactly the head entry. *)
Lemma set_bounded_full (m r : t) (e : jsstring * jsstring) (k v : jsstring) :
  m = e :: r -> size m = 100 -> get m k = None ->
  set_bounded m k v = r ++ [(k, v)].
Proof.
  intros -> Hsize Hget. unfold set_bounded.
  rewrite set_absent by assumption.
  unfold size in *. rewrite length_app. simpl length.
  destruct (Nat.ltb_spec 100 (S (length r) + 1)) as [_|Hle]; [|simpl in *; lia].
  destruct e as [k0 v0]. simpl. now rewrite eqb_refl.
Qed.

(** Below or at the bound, a key that was just set is still there. *)
Lemma get_set_bounded_same (m : t) (k v : jsstring) :
  size m <= 100 -> get (set_bounded m k v) k = Some v.
Proof.
  intros Hm. unfold set_bounded.
  pose proof (size_set m k v) as Hs. pose proof (get_set_same m k v) as Hg.
  destruct (Nat.ltb_spec 100 (size (set m k v))) as [Hgt|_]; [|exact Hg].
  destruct (get m k) eqn:E; [lia|].
  rewrite set_absent in * by assumption.
  destruct m as [|[k0 v0] r]; simpl in *.
  - unfold size in Hgt. simpl in Hgt. lia.
  - rewrite eqb_refl. destruct (Js.eqb k0 k) eqn:E0; [discriminate|].
    exact Hg.
Qed.

End JsMapFacts.

(* ------------------------------------------------------------------ *)
(** ** The safety override of [generateBotResponse] *)

Section Resolver.
Context `{CaseMapping}.
Import ChatService.

Lemma keyword_concerning (text keyword : jsstring) :
  In keyword CONCERN_KEYWORDS ->
  Js.includes (toLowerCase text) (toLowerCase keyword) = true ->
  containsConcerningContent text = true.
Proof.
  intros Hin Hinc. unfold containsConcerningContent.
  apply existsb_exists. exists keyword. split; assumption.
Qed.

(** C1.  An input that contains a concern keyword (the lower-cased input
    includes the lower-cased keyword) is answered with the safety-resources
    message, whatever the cache holds, whatever the history is, whatever the
    pattern list would match and whatever the request to the route would
    have produced: the whole outcome is fixed.  The cache is left as it was
    (nothing is stored) and the only effect is the log line, so no request
    is sent. *)
Theorem concern_keyword_yields_safety_message
    (userInput keyword : jsstring) (responseCache : JsMap.t)
    (messageHistory : list Turn) (net : fetch_outcome) (random : Q) :
  In keyword CONCERN_KEYWORDS ->
  Js.includes (toLowerCase userInput) (toLowerCase keyword) = true ->
  generateBotResponse responseCache userInput messageHistory net random =
  {| result := Return (VString generateSafetyResourcesMessage);
     cache_after := responseCache;
     effects := [ConsoleLog (Js.lit "Concerning content detected in conversation")] |}.
Proof.
  intros Hin Hinc. unfold generateBotResponse.
  rewrite (keyword_concerning _ _ Hin Hinc). reflexivity.
Qed.

(** *** Failures end in a sentence *)

Lemma random_index (random : Q) :
  (0 <= random)%Q -> (random < 1)%Q ->
  (0 <= Qfloor (random * inject_Z 4) < 4)%Z.
Proof.
  intros H0 H1. split.
  - change 0%Z with (Qfloor 0). apply Qfloor_resp_le.
    apply Qmult_le_0_compat; [assumption|discriminate].
  - rewrite Zlt_Qlt.
    apply Qle_lt_trans with (random * inject_Z 4)%Q; [apply Qfloor_le|].
    destruct random as [a b]. unfold Qlt in *. simpl in *. lia.
Qed.

Lemma fallback_reply (random : Q) :
  (0 <= random)%Q -> (random < 1)%Q ->
  exists s,
    at_index fallbackResponses
      (Qfloor (random * inject_Z (Z.of_nat (length fallbackResponses)))) = Some s
    /\ In s fallbackResponses.
Proof.
  intros H0 H1. change (Z.of_nat (length fallbackResponses)) with 4%Z.
  pose proof (random_index random H0 H1) as Hi.
  set (i := Qfloor (random * inject_Z 4)) in *.
  unfold at_index. destruct (Z.ltb_spec i 0) as [Hn|_]; [lia|].
  assert (Hc : Z.to_nat i = 0 \/ Z.to_nat i = 1 \/ Z.to_nat i = 2
               \/ Z.to_nat i = 3) by lia.
  unfold fallbackResponses.
  destruct Hc as [-> | [-> | [-> | ->]]]; cbn [nth_error]; eexists;
    (split; [reflexivity|]).
  - left. reflexivity.
  - right. left. reflexivity.
  - do 2 right. left. reflexivity.
  - do 3 right. left. reflexivity.
Qed.

Lemma on_error_literal (message : jsstring) (random : Q) :
  (0 <= random)%Q -> (random < 1)%Q ->
  exists s, on_error message random = VString s /\ In s failure_replies.
Proof.
  intros H0 H1. unfold on_error.
  unfold failure_replies. cbn [app].
  destruct (Js.eqb _ _).
  { eexists. split; [reflexivity|]. left. reflexivity. }
  destruct (_ || _).
  { eexists. split; [reflexivity|]. right. left. reflexivity. }
  destruct (_ || _).
  { eexists. split; [reflexivity|]. do 2 right. left. reflexivity. }
  destruct (_ || _).
  { eexists. split; [reflexivity|]. do 3 right. left. reflexivity. }
  destruct (_ || _).
  { eexists. split; [reflexivity|]. do 4 right. left. reflexivity. }
  destruct (Js.includes _ _).
  { eexists. split; [reflexivity|]. do 5 right. left. reflexivity. }
  destruct (fallback_reply random H0 H1) as (s & -> & Hs).
  exists s. split; [reflexivity|].
  do 6 right. exact Hs.
Qed.

(** The [try] block gives a text only for a response with a 2xx status
    whose body is an object with that text in [response]. *)
Lemma attempt_returns (net : fetch_outcome) (t : jsstring) :
  attempt net = Return t ->
  exists status e,
    net = FetchResolves status (Json (JsonObject (Some t) e))
    /\ ok status = true /\ Js.truthy t = true.
Proof.
  unfold attempt, race. destruct net as [|m|status p]; try discriminate.
  unfold on_response. destruct (ok status) eqn:Hok; cbn [negb].
  - destruct p as [[[r|] e|]|m]; cbn [parse bind result_response];
      try discriminate.
    destruct (Js.truthy r) eqn:Ht; [|discriminate].
    intros [= <-]. exists status, e. repeat split; assumption.
  - destruct (status =? 500)%N; [|discriminate].
    destruct p as [[r e|]|m]; discriminate.
Qed.

Lemma attempt_answered (status : N) (text : jsstring) (e : option jsstring) :
  attempt (FetchResolves status (Json (JsonObject (Some text) e)))
  = if ok status && Js.truthy text then Return text
    else attempt (FetchResolves status (Json (JsonObject (Some text) e))).
Proof.
  destruct (ok status && Js.truthy text) eqn:E; [|reflexivity].
  apply andb_true_iff in E as [Hok Ht].
  unfold attempt, race, on_response. rewrite Hok. cbn [negb parse bind].
  unfold result_response. now rewrite Ht.
Qed.

(** C2.  For every message, every history of turns, every state of the
    cache and every way the request can end (timer first, rejected fetch,
    any status with any body), [generateBotResponse] completes normally
    with a string, and the string is fixed by the path taken: the safety
    message when the input or the history is concerning; else the cached or
    canned reply when there is one; else the [response] text of the route
    when the response has a 2xx status and that text is not empty; and in
    every other case, that is on every failure path (timer first, rejected
    fetch, status outside 2xx, body that is not JSON or is [null], no
    [response] text), one of the ten literal sentences of the [catch]
    block.  [random] is the value of [Math.random()], a number in [0, 1). *)
Theorem generateBotResponse_returns_string
    (responseCache : JsMap.t) (userInput : jsstring)
    (messageHistory : list Turn) (net : fetch_outcome) (random : Q) :
  (0 <= random)%Q -> (random < 1)%Q ->
  exists reply,
    result (generateBotResponse responseCache userInput messageHistory net random)
    = Return (VString reply)
    /\ (containsConcerningContent userInput || hasConcerningPattern messageHistory
        = true -> reply = generateSafetyResourcesMessage)
    /\ (containsConcerningContent userInput || hasConcerningPattern messageHistory
        = false ->
        forall cached,
          truthy_reply (getCachedResponse responseCache userInput) = Some cached ->
          reply = cached)
    /\ (containsConcerningContent userInput || hasConcerningPattern messageHistory
        = false ->
        truthy_reply (getCachedResponse responseCache userInput) = None ->
        match net with
        | FetchResolves status (Json (JsonObject (Some text) _)) =>
            if ok status && Js.truthy text then reply = text
            else In reply failure_replies
        | _ => In reply failure_replies
        end).
Proof.
  intros H0 H1. unfold generateBotResponse.
  destruct (containsConcerningContent userInput || hasConcerningPattern messageHistory).
  { eexists. split; [reflexivity|]. split; [reflexivity|].
    split; discriminate. }
  destruct (truthy_reply (getCachedResponse responseCache userInput)) as [v|].
  { exists v. split; [reflexivity|]. split; [discriminate|].
    split; [intros _ cached [= ->]; reflexivity|discriminate]. }
  destruct (attempt net) as [r|m] eqn:Ea; cbn [result].
  - exists r. split; [reflexivity|]. split; [discriminate|].
    split; [discriminate|]. intros _ _.
    destruct (attempt_returns net r Ea) as (status & e & -> & Hok & Ht).
    now rewrite Hok, Ht.
  - destruct (on_error_literal m random H0 H1) as (s & -> & Hs).
    exists s. split; [reflexivity|]. split; [discriminate|].
    split; [discriminate|]. intros _ _.
    destruct net as [|fm|status [[[text|] e|]|sm]]; try exact Hs.
    rewrite attempt_answered in Ea.
    destruct (ok status && Js.truthy text); [discriminate Ea|exact Hs].
Qed.

(** *** The pattern check over the recent user turns *)

Lemma count_by_fold {A} (P : A -> bool) (l : list A) (n : nat) :
  fold_left (fun count x => count + (if P x then 1 else 0)) l n
  = n + length (filter P l).
Proof.
  revert n. induction l as [|x l IH]; intros n; simpl.
  - lia.
  - rewrite IH. destruct (P x); simpl; lia.
Qed.

Lemma slice_last_app {A} (n : nat) (earlier recent : list A) :
  length recent = n \/ (earlier = [] /\ length recent <= n) ->
  slice_last n (earlier ++ recent) = recent.
Proof.
  unfold slice_last. intros [Hn | [-> Hn]].
  - rewrite length_app, <- Hn.
    replace (length earlier + length recent - length recent)
      with (length earlier + 0) by lia.
    rewrite skipn_app, Nat.add_comm. simpl.
    rewrite skipn_all2 by lia.
    replace (length earlier - length earlier) with 0 by lia. reflexivity.
  - simpl. replace (length recent - n) with 0 by lia. reflexivity.
Qed.

(** C3.  Split the user turns of the conversation (the turns whose sender
    is ['user'], in order) into the last three, [recent] (all of them when
    there are fewer than three), and the [earlier] ones.  Then
    [hasConcerningPattern] is true exactly when at least two turns of
    [recent] are individually concerning; the [earlier] turns and the turns
    of the bot have no influence.  In particular, when no turn of [recent]
    is concerning the result is false, whatever [earlier] holds. *)
Theorem hasConcerningPattern_last_three
    (messages earlier recent : list Turn) :
  filter (fun msg => Js.eqb (sender msg) (Js.lit "user")) messages
    = earlier ++ recent ->
  length recent = 3 \/ (earlier = [] /\ length recent <= 3) ->
  (hasConcerningPattern messages = true <->
   2 <= length (filter (fun msg => containsConcerningContent (text msg)) recent))
  /\ ((forall msg, In msg recent -> containsConcerningContent (text msg) = false) ->
      hasConcerningPattern messages = false).
Proof.
  intros Husers Hrecent.
  assert (Hcount : hasConcerningPattern messages =
    (2 <=? length (filter (fun msg => containsConcerningContent (text msg)) recent))).
  { unfold hasConcerningPattern. rewrite Husers.
    rewrite (slice_last_app 3 earlier recent Hrecent).
    rewrite (count_by_fold (fun msg => containsConcerningContent (text msg))).
    reflexivity. }
  split.
  - rewrite Hcount. apply Nat.leb_le.
  - intros Hnone. rewrite Hcount.
    replace (filter (fun msg => containsConcerningContent (text msg)) recent)
      with (@nil Turn); [reflexivity|].
    symmetry. clear -Hnone. induction recent as [|t r IH]; [reflexivity|].
    simpl. rewrite (Hnone t (or_introl eq_refl)).
    apply IH. intros msg Hin. apply Hnone. right. exact Hin.
Qed.

(** *** The exact-match cache *)

Lemma cacheResponse_unfold (cache : JsMap.t) (input response : jsstring) :
  cacheResponse cache input response =
  if (3 <? length input) && (length input <? 100)
     && negb (containsConcerningContent input)
  then JsMap.set_bounded cache (toLowerCase input) response
  else cache.
Proof. reflexivity. Qed.

Lemma admission_test (input : jsstring) :
  (3 <? length input) && (length input <? 100)
    && negb (containsConcerningContent input) = true
  <-> 4 <= length input <= 99 /\ containsConcerningContent input = false.
Proof.
  rewrite !andb_true_iff, negb_true_iff, !Nat.ltb_lt. intuition lia.
Qed.

Lemma cacheResponse_keys (cache : JsMap.t) (input response key : jsstring) :
  In key (JsMap.keys (cacheResponse cache input response)) ->
  In key (JsMap.keys cache) \/ admitted_key key.
Proof.
  rewrite cacheResponse_unfold.
  destruct (_ && _) eqn:E; [|tauto].
  apply admission_test in E. intros Hin.
  unfold JsMap.keys in Hin. apply in_map_iff in Hin as (e & <- & Hin).
  apply JsMapFacts.in_set_bounded in Hin.
  assert (Hk : In (fst e) (JsMap.keys (JsMap.set cache (toLowerCase input) response))).
  { unfold JsMap.keys. apply in_map. exact Hin. }
  apply JsMapFacts.in_keys_set in Hk as [Hk|Hk]; [|tauto].
  right. exists input. tauto.
Qed.

Lemma cacheResponse_values (cache : JsMap.t) (input response : jsstring)
    (e : jsstring * jsstring) :
  In e (cacheResponse cache input response) -> In e cache \/ snd e = response.
Proof.
  rewrite cacheResponse_unfold. destruct (_ && _); [|tauto].
  intros Hin. apply JsMapFacts.in_set_bounded, JsMapFacts.in_set in Hin.
  destruct Hin as [?|[-> _]]; simpl; tauto.
Qed.

Lemma cacheResponse_size (cache : JsMap.t) (input response : jsstring) :
  JsMap.size cache <= 100 ->
  JsMap.size (cacheResponse cache input response) <= 100.
Proof.
  rewrite cacheResponse_unfold. destruct (_ && _); [|tauto].
  apply JsMapFacts.size_set_bounded.
Qed.

Lemma attempt_truthy (net : fetch_outcome) (r : jsstring) :
  attempt net = Return r -> Js.truthy r = true.
Proof.
  unfold attempt. destruct (race net) as [j|m]; cbn [bind]; [|discriminate].
  unfold result_response. destruct j as [[r'|] e|]; try discriminate.
  destruct (Js.truthy r') eqn:T; [|discriminate]. congruence.
Qed.

(** What a call can do to the cache: nothing, or store a truthy reply. *)
Lemma cache_after_call (cache : JsMap.t) (userInput : jsstring)
    (history : list Turn) (net : fetch_outcome) (random : Q) :
  let after := cache_after (generateBotResponse cache userInput history net random) in
  after = cache \/
  exists r, Js.truthy r = true /\ after = cacheResponse cache userInput r.
Proof.
  unfold generateBotResponse.
  destruct (_ || _); [left; reflexivity|].
  destruct (truthy_reply _); [left; reflexivity|].
  destruct (attempt net) as [r|m] eqn:E; [|left; reflexivity].
  right. exists r. split; [|reflexivity].
  exact (attempt_truthy net r E).
Qed.

(** The invariants of every reachable cache. *)
Lemma reachable_invariant (cache : JsMap.t) :
  reachable cache ->
  JsMap.size cache <= 100
  /\ (forall key, In key (JsMap.keys cache) -> admitted_key key)
  /\ (forall e, In e cache -> Js.truthy (snd e) = true).
Proof.
  induction 1 as [|cache userInput history net random _ (Hsize & Hkeys & Hvals)].
  - split; [simpl; lia|]. split; intros ? [].
  - destruct (cache_after_call cache userInput history net random)
      as [-> | (r & Hr & ->)]; [tauto|].
    split; [apply cacheResponse_size, Hsize|]. split.
    + intros key Hin. apply cacheResponse_keys in Hin as [Hin|Hin]; auto.
    + intros e Hin. apply cacheResponse_values in Hin as [Hin| ->]; auto.
Qed.

(** C4 (amended).  After every sequence of calls, every key of the cache
    is the lower-cased form of an input of at least 4 and at most 99
    characters that is not concerning; and [cacheResponse] leaves the cache
    as it is for an input of length 3 or less, of length 100 or more, or
    that is concerning. *)
Theorem cache_admission (cache : JsMap.t) :
  reachable cache ->
  (forall key, In key (JsMap.keys cache) ->
     exists input, key = toLowerCase input /\ 4 <= length input <= 99
                   /\ containsConcerningContent input = false)
  /\ (forall input response,
        length input <= 3 \/ 100 <= length input
        \/ containsConcerningContent input = true ->
        cacheResponse cache input response = cache).
Proof.
  intros Hreach. split.
  - apply (reachable_invariant cache Hreach).
  - intros input response Hout. rewrite cacheResponse_unfold.
    destruct (_ && _) eqn:E; [|reflexivity].
    apply admission_test in E. destruct Hout as [?|[?|?]]; [lia|lia|].
    destruct E as [_ E]. congruence.
Qed.

(** C5.  A reachable cache never holds more than 100 entries, also after
    one more store; and when it holds exactly 100 and an admissible input
    with a key that is not held is stored, the result is the cache without
    its first entry (the one inserted first) followed by the new entry:
    the other 99 entries keep their values and their order. *)
Theorem cache_bound_and_fifo_eviction
    (cache : JsMap.t) (input response : jsstring)
    (oldest : jsstring * jsstring) (rest : JsMap.t) :
  reachable cache ->
  cache = oldest :: rest ->
  JsMap.size cache = 100 ->
  4 <= length input <= 99 ->
  containsConcerningContent input = false ->
  ~ In (toLowerCase input) (JsMap.keys cache) ->
  cacheResponse cache input response = rest ++ [(toLowerCase input, response)]
  /\ JsMap.size (cacheResponse cache input response) = 100
  /\ forall input' response',
       JsMap.size (cacheResponse cache input' response') <= 100.
Proof.
  intros Hreach Hcache Hsize Hlen Hsafe Hnew.
  assert (Heq : cacheResponse cache input response
                = rest ++ [(toLowerCase input, response)]).
  { rewrite cacheResponse_unfold.
    rewrite (proj2 (admission_test input) (conj Hlen Hsafe)).
    apply (JsMapFacts.set_bounded_full cache rest oldest); try assumption.
    now apply JsMapFacts.get_none_keys. }
  split; [exact Heq|]. split.
  - rewrite Heq. subst cache. unfold JsMap.size in *.
    rewrite length_app. simpl in *. lia.
  - intros input' response'. apply cacheResponse_size.
    apply (reachable_invariant cache Hreach).
Qed.

(** *** A cached input is answered from the cache *)

Lemma get_some_in (m : JsMap.t) (k v : jsstring) :
  JsMap.get m k = Some v -> In (k, v) m.
Proof.
  induction m as [|[k' v'] r IH]; simpl; [discriminate|].
  destruct (Js.eqb k' k) eqn:E.
  - apply eqb_eq in E. intros [= ->]. left. congruence.
  - intros Hg. right. now apply IH.
Qed.

Lemma cached_hit (cache : JsMap.t) (input : jsstring) :
  (forall e, In e cache -> Js.truthy (snd e) = true) ->
  JsMap.has cache (toLowerCase input) = true ->
  exists v, JsMap.get cache (toLowerCase input) = Some v
            /\ truthy_reply (getCachedResponse cache input) = Some v.
Proof.
  intros Hvals Hhas. unfold getCachedResponse. rewrite Hhas.
  unfold JsMap.has in Hhas.
  destruct (JsMap.get cache (toLowerCase input)) as [v|] eqn:E; [|discriminate].
  exists v. split; [reflexivity|]. unfold truthy_reply.
  pose proof (Hvals _ (get_some_in _ _ _ E)) as Hv. cbn [snd] in Hv.
  now rewrite Hv.
Qed.

Lemma hit_outcome (cache : JsMap.t) (userInput v : jsstring)
    (history : list Turn) (net : fetch_outcome) (random : Q) :
  containsConcerningContent userInput || hasConcerningPattern history = false ->
  truthy_reply (getCachedResponse cache userInput) = Some v ->
  generateBotResponse cache userInput history net random =
  {| result := Return (VString v); cache_after := cache;
     effects := [ConsoleLog (Js.lit "Using cached response")] |}.
Proof.
  intros Hc Hhit. unfold generateBotResponse. now rewrite Hc, Hhit.
Qed.

Lemma safety_outcome (cache : JsMap.t) (userInput : jsstring)
    (history : list Turn) (net : fetch_outcome) (random : Q) :
  containsConcerningContent userInput || hasConcerningPattern history = true ->
  generateBotResponse cache userInput history net random =
  {| result := Return (VString generateSafetyResourcesMessage);
     cache_after := cache;
     effects := [ConsoleLog (Js.lit "Concerning content detected in conversation")] |}.
Proof.
  intros Hc. unfold generateBotResponse. now rewrite Hc.
Qed.

(** The ways a call can go: the safety override; a hit; a miss followed by
    a truthy reply that goes through [cacheResponse]; a miss followed by a
    failure, which leaves the cache alone. *)
Lemma call_cases (cache : JsMap.t) (userInput : jsstring)
    (history : list Turn) (net : fetch_outcome) (random : Q) :
  let call := generateBotResponse cache userInput history net random in
  let concerning :=
    containsConcerningContent userInput || hasConcerningPattern history in
  (concerning = true /\ cache_after call = cache)
  \/ (concerning = false /\ cache_after call = cache /\
      exists v, truthy_reply (getCachedResponse cache userInput) = Some v)
  \/ (concerning = false /\
      truthy_reply (getCachedResponse cache userInput) = None /\
      exists r, Js.truthy r = true /\ result call = Return (VString r)
                /\ cache_after call = cacheResponse cache userInput r)
  \/ (concerning = false /\
      truthy_reply (getCachedResponse cache userInput) = None /\
      cache_after call = cache).
Proof.
  cbv zeta. unfold generateBotResponse.
  destruct (_ || _); [left; split; reflexivity|].
  destruct (truthy_reply _) as [v|].
  { right. left. repeat split. exists v. reflexivity. }
  right. right.
  destruct (attempt net) as [r|m] eqn:E; [|right; repeat split].
  left. split; [reflexivity|]. split; [reflexivity|].
  exists r. repeat split. exact (attempt_truthy net r E).
Qed.

(** C7.  Let the cache be in any state it can reach, and let a first call
    leave an entry for the input in the cache.  Then a second call with the
    same input and the same history returns what the first call returned,
    sends no request (whatever the route would have answered), and leaves
    the cache as it is. *)
Theorem second_call_served_from_cache
    (cache : JsMap.t) (userInput : jsstring) (history : list Turn)
    (net1 net2 : fetch_outcome) (random1 random2 : Q) :
  reachable cache ->
  JsMap.has
    (cache_after (generateBotResponse cache userInput history net1 random1))
    (toLowerCase userInput) = true ->
  let first := generateBotResponse cache userInput history net1 random1 in
  let second :=
    generateBotResponse (cache_after first) userInput history net2 random2 in
  result second = result first
  /\ (forall m h, ~ In (Fetch m h) (effects second))
  /\ cache_after second = cache_after first.
Proof.
  intros Hreach Hhas first second.
  destruct (reachable_invariant cache Hreach) as (Hsize & _ & Hvals).
  assert (Hmiss : truthy_reply (getCachedResponse cache userInput) = None ->
                  JsMap.has cache (toLowerCase userInput) = true -> False).
  { intros Hn Hh. destruct (cached_hit cache userInput Hvals Hh) as (v & _ & Hv).
    congruence. }
  fold first in Hhas.
  destruct (call_cases cache userInput history net1 random1)
    as [(Hc & Hafter) | [(Hc & Hafter & v & Hv) | [(Hc & Hn & r & Hr & Hres & Hafter)
        | (Hc & Hn & Hafter)]]];
    fold first in Hafter; subst second.
  - (* safety override, twice *)
    rewrite Hafter. unfold first.
    rewrite !(safety_outcome _ _ _ _ _ Hc). cbn [result effects cache_after].
    split; [reflexivity|]. split; [|reflexivity].
    intros m h [Hin|[]]. discriminate.
  - (* hit, twice *)
    rewrite Hafter. unfold first.
    rewrite !(hit_outcome _ _ v _ _ _ Hc Hv). cbn [result effects cache_after].
    split; [reflexivity|]. split; [|reflexivity].
    intros m h [Hin|[]]. discriminate.
  - (* stored by the first call *)
    fold first in Hres. rewrite Hres.
    assert (Hh : truthy_reply (getCachedResponse (cache_after first) userInput)
                 = Some r).
    { revert Hhas. rewrite Hafter, cacheResponse_unfold.
      destruct (_ && _); [intros _|intros Hh; destruct (Hmiss Hn Hh)].
      unfold getCachedResponse, JsMap.has.
      rewrite (JsMapFacts.get_set_bounded_same cache (toLowerCase userInput) r Hsize).
      unfold truthy_reply. now rewrite Hr. }
    rewrite (hit_outcome _ _ r _ _ _ Hc Hh). cbn [result effects cache_after].
    split; [reflexivity|]. split; [|reflexivity].
    intros m h [Hin|[]]. discriminate.
  - (* the first call failed: the input has no entry *)
    rewrite Hafter in Hhas. destruct (Hmiss Hn Hhas).
Qed.

(** *** The sentences for failures *)

Lemma failed_outcome (cache : JsMap.t) (userInput message : jsstring)
    (history : list Turn) (net : fetch_outcome) (random : Q) :
  containsConcerningContent userInput || hasConcerningPattern history = false ->
  truthy_reply (getCachedResponse cache userInput) = None ->
  attempt net = Throw message ->
  result (generateBotResponse cache userInput history net random)
  = Return (on_error message random)
  /\ cache_after (generateBotResponse cache userInput history net random) = cache.
Proof.
  intros Hc Hn Ha. unfold generateBotResponse. rewrite Hc, Hn, Ha.
  split; reflexivity.
Qed.

Lemma server_error_message (p : payload) :
  attempt (FetchResolves 500 p)
  = Throw (Js.lit "HTTP error! status: 500 - Serverfehler").
Proof.
  unfold attempt, race, on_response.
  change (negb (ok 500)) with true. change (500 =? 500)%N with true.
  cbv iota.
  destruct p as [[r e|]|m]; reflexivity.
Qed.

Lemma on_error_specific_or_generic (message : jsstring) (random1 random2 : Q) :
  (0 <= random1)%Q -> (random1 < 1)%Q -> (0 <= random2)%Q -> (random2 < 1)%Q ->
  on_error message random1 = on_error message random2
  \/ exists s1 s2, on_error message random1 = VString s1
                   /\ on_error message random2 = VString s2
                   /\ In s1 fallbackResponses /\ In s2 fallbackResponses.
Proof.
  intros A1 B1 A2 B2. unfold on_error.
  destruct (Js.eqb _ _); [left; reflexivity|].
  destruct (_ || _); [left; reflexivity|].
  destruct (_ || _); [left; reflexivity|].
  destruct (_ || _); [left; reflexivity|].
  destruct (_ || _); [left; reflexivity|].
  destruct (Js.includes _ _); [left; reflexivity|].
  right.
  destruct (fallback_reply random1 A1 B1) as (s1 & -> & Hs1).
  destruct (fallback_reply random2 A2 B2) as (s2 & -> & Hs2).
  exists s1, s2. repeat split; assumption.
Qed.

(** C8 (amended).  A request fails when the input is not concerning,
    nothing is cached or canned for it, and the [try] block ends with an
    error.  A failed request is answered with one of the ten literal
    sentences of the [catch] block, whatever the message of the error
    says, and the cache is not touched.  The sentence is chosen from the
    message alone, except among the four generic sentences: two failed
    requests with the same message (in any two states of the cache, for
    any two inputs and histories, with any two values of [Math.random()])
    get the same sentence, or each gets one of the four generic sentences.
    When the timer fires first the reply is the timeout sentence; an empty
    response gets one of the generic sentences. *)
Theorem failure_is_answered_by_a_literal
    (cache1 cache2 : JsMap.t) (userInput1 userInput2 message : jsstring)
    (history1 history2 : list Turn) (net1 net2 : fetch_outcome)
    (random1 random2 : Q) :
  (0 <= random1)%Q -> (random1 < 1)%Q -> (0 <= random2)%Q -> (random2 < 1)%Q ->
  containsConcerningContent userInput1 || hasConcerningPattern history1 = false ->
  containsConcerningContent userInput2 || hasConcerningPattern history2 = false ->
  truthy_reply (getCachedResponse cache1 userInput1) = None ->
  truthy_reply (getCachedResponse cache2 userInput2) = None ->
  attempt net1 = Throw message ->
  attempt net2 = Throw message ->
  let first := generateBotResponse cache1 userInput1 history1 net1 random1 in
  let second := generateBotResponse cache2 userInput2 history2 net2 random2 in
  (exists s, result first = Return (VString s) /\ In s failure_replies)
  /\ (result first = result second
      \/ exists s s', result first = Return (VString s)
                      /\ result second = Return (VString s')
                      /\ In s fallbackResponses /\ In s' fallbackResponses)
  /\ (net1 = TimerWins -> result first = Return (VString timeout_reply))
  /\ (message = Js.lit "Empty response received" ->
      exists s, result first = Return (VString s) /\ In s fallbackResponses)
  /\ cache_after first = cache1.
Proof.
  intros A1 B1 A2 B2 Hc1 Hc2 Hn1 Hn2 Ha1 Ha2 first second.
  destruct (failed_outcome cache1 userInput1 message history1 net1 random1
              Hc1 Hn1 Ha1) as [Hfirst Hcache].
  destruct (failed_outcome cache2 userInput2 message history2 net2 random2
              Hc2 Hn2 Ha2) as [Hsecond _].
  fold first in Hfirst, Hcache. fold second in Hsecond.
  rewrite Hfirst, Hsecond.
  split; [|split; [|split; [|split]]].
  - destruct (on_error_literal message random1 A1 B1) as (s & -> & Hs).
    exists s. split; [reflexivity|exact Hs].
  - destruct (on_error_specific_or_generic message random1 random2 A1 B1 A2 B2)
      as [-> | (s & s' & -> & -> & Hs & Hs')]; [left; reflexivity|].
    right. exists s, s'. repeat split; assumption.
  - intros ->.
    unfold attempt, race in Ha1. cbn [bind] in Ha1. injection Ha1 as <-.
    reflexivity.
  - intros ->.
    change (on_error (Js.lit "Empty response received") random1)
      with (match at_index fallbackResponses
                    (Qfloor (random1 * inject_Z (Z.of_nat (length fallbackResponses))))
            with Some s => VString s | None => VUndefined end).
    destruct (fallback_reply random1 A1 B1) as (s & -> & Hs).
    exists s. split; [reflexivity|exact Hs].
  - exact Hcache.
Qed.

End Resolver.

(* ------------------------------------------------------------------ *)
(** ** The two versions of the route handler *)

Section Handlers.
Context `{CaseMapping}.
Import Route.

Lemma rethrows_cases (e : JsError) :
  (has_status e 401 || has_status e 403 || is_model_error e = false
   /\ ChatJs.handleApiRequest_rethrows e = e)
  \/ (has_status e 401 || has_status e 403 || is_model_error e = true
      /\ exists m, ChatJs.handleApiRequest_rethrows e = Error m).
Proof.
  unfold ChatJs.handleApiRequest_rethrows, has_status, is_model_error.
  destruct (response e) as [r|]; [|left; split; reflexivity].
  destruct (response_status r =? 401)%N;
    [right; split; [reflexivity|eexists; reflexivity]|].
  destruct (response_status r =? 403)%N;
    [right; split; [reflexivity|eexists; reflexivity]|].
  cbn [orb].
  destruct (_ && _); [right|left]; (split; [reflexivity|]);
    [eexists; reflexivity|reflexivity].
Qed.

Lemma fresh_error_not_aborted (m : jsstring) :
  Js.eqb (name (Error m)) (Js.lit "AbortError")
  || option_eqb (code (Error m)) (Js.lit "ECONNABORTED") = false.
Proof. reflexivity. Qed.

Lemma type_error_not_aborted (m : jsstring) :
  Js.eqb (name (TypeError m)) (Js.lit "AbortError")
  || option_eqb (code (TypeError m)) (Js.lit "ECONNABORTED") = false.
Proof. reflexivity. Qed.










(** *** The cache of the route *)

Lemma get_set_bounded_new (m : JsMap.t) (k v : jsstring) :
  JsMap.get m k = None -> JsMap.get (JsMap.set_bounded m k v) k = Some v.
Proof.
  intros Hn. unfold JsMap.set_bounded.
  pose proof (JsMapFacts.get_set_same m k v) as Hg.
  destruct (100 <? JsMap.size (JsMap.set m k v)) eqn:Hfull; [|exact Hg].
  destruct m as [|[k0 v0] r]; [discriminate Hfull|].
  simpl in Hn. destruct (Js.eqb k0 k) eqn:E0; [discriminate|].
  simpl. rewrite E0. simpl. rewrite eqb_refl.
  apply JsMapFacts.get_set_same.
Qed.

(** What [deliver] sends and stores for a reply of the service. *)
Lemma deliver_outcome (cache : JsMap.t) (key botResponse : jsstring)
    (posted : option (list ChatMessage)) :
  JsMap.get cache key = None ->
  let o := deliver cache key botResponse posted in
  (isSafeResponse botResponse = true /\
   reply o = Return {| status := 200; json := Chat botResponse (Js.lit "api") |} /\
   JsMap.get (cache_after o) key = Some botResponse)
  \/ (isSafeResponse botResponse = false /\
      reply o = Return {| status := 200; json := Chat safeResponse (Js.lit "fallback") |} /\
      JsMap.get (cache_after o) key = Some safeResponse).
Proof.
  intros Hn. cbv zeta. unfold deliver, respond.
  destruct (isSafeResponse botResponse); [left|right];
    (split; [reflexivity|]); (split; [reflexivity|]); cbn [cache_after].
  - apply (get_set_bounded_new cache key botResponse Hn).
  - apply JsMapFacts.get_set_same.
Qed.

Lemma source_tags_differ (source : jsstring) :
  source = Js.lit "api" \/ source = Js.lit "fallback" \/ source = Js.lit "cache" ->
  source <> Js.lit "timeout" /\ source <> Js.lit "auth_error".
Proof.
  intros [-> | [-> | ->]]; split; apply eqb_neq; reflexivity.
Qed.

(** A request that is answered with source ['api'], ['fallback'] or
    ['cache'] leaves its reply in the cache under the key of the request. *)
Lemma answered_is_cached (cache : JsMap.t) (key : option jsstring)
    (req : Request) (remote : remote_outcome) (message text source : jsstring) :
  Js.eqb (method req) (Js.lit "POST") = true ->
  present (Route.message req) = Some message ->
  reply (ChatJs.handler cache key req remote)
  = Return {| status := 200; json := Chat text source |} ->
  source = Js.lit "api" \/ source = Js.lit "fallback" \/ source = Js.lit "cache" ->
  JsMap.get (cache_after (ChatJs.handler cache key req remote))
            (cacheKey message (messageHistory req)) = Some text.
Proof.
  intros Hpost Hmsg Hreply Hsrc.
  destruct (source_tags_differ source Hsrc) as (Hnt & Hna).
  revert Hreply. unfold ChatJs.handler. rewrite Hpost, Hmsg. cbn [negb].
  destruct (JsMap.get cache _) as [cached|] eqn:Eg.
  { unfold respond. cbn [reply cache_after]. intros [= <- _]. exact Eg. }
  destruct (credential_missing key).
  { rewrite fresh_error_not_aborted. cbn [response Error reply]. discriminate. }
  destruct remote as [c|m|e].
  - destruct (deliver_outcome cache _ c (Some (messages_for message (messageHistory req))) Eg)
      as [(_ & -> & Hg) | (_ & -> & Hg)]; intros [= <- _]; exact Hg.
  - rewrite type_error_not_aborted. cbn [response TypeError reply]. discriminate.
  - destruct (Js.eqb _ _ || _).
    { unfold respond. cbn [reply]. intros [= _ Hs]. congruence. }
    destruct (match response _ with Some _ => _ | None => _ end).
    { unfold respond. cbn [reply]. intros [= _ Hs]. congruence. }
    cbn [reply]. discriminate.
Qed.

(** C10 (amended).  The route keeps its own cache under the key
    [message + ':' + history length], built from the raw message: nothing
    is lower-cased, and neither the length of the message nor its content is
    examined.  If a POST with a message is answered with source ['api'],
    ['fallback'] or ['cache'], a later POST with the same message and a
    history of the same length, made in the state the first one left, is
    answered with the same text and source ['cache'], whatever the
    credential and the completion service would do; no request is posted. *)
Theorem route_cache_replays (cache : JsMap.t) (key1 key2 : option jsstring)
    (req1 req2 : Request) (remote1 remote2 : remote_outcome)
    (message text source : jsstring) :
  Js.eqb (method req1) (Js.lit "POST") = true ->
  Js.eqb (method req2) (Js.lit "POST") = true ->
  present (Route.message req1) = Some message ->
  present (Route.message req2) = Some message ->
  match messageHistory req1 with Some h => length h | None => 0 end
  = match messageHistory req2 with Some h => length h | None => 0 end ->
  reply (ChatJs.handler cache key1 req1 remote1)
  = Return {| status := 200; json := Chat text source |} ->
  source = Js.lit "api" \/ source = Js.lit "fallback" \/ source = Js.lit "cache" ->
  let first := ChatJs.handler cache key1 req1 remote1 in
  let second := ChatJs.handler (cache_after first) key2 req2 remote2 in
  JsMap.get (cache_after first)
    (message ++ Js.lit ":" ++
     Js.of_nat (match messageHistory req1 with Some h => length h | None => 0 end))
  = Some text
  /\ reply second = Return {| status := 200; json := Chat text (Js.lit "cache") |}
  /\ posted second = None
  /\ cache_after second = cache_after first.
Proof.
  intros Hp1 Hp2 Hm1 Hm2 Hlen Hreply Hsrc first second.
  pose proof (answered_is_cached cache key1 req1 remote1 message text source
                Hp1 Hm1 Hreply Hsrc) as Hg.
  fold first in Hg. split; [exact Hg|].
  subst second. unfold ChatJs.handler at 1 2 3. rewrite Hp2, Hm2. cbn [negb].
  assert (Hk : cacheKey message (messageHistory req2)
               = cacheKey message (messageHistory req1)).
  { unfold cacheKey. now rewrite Hlen. }
  rewrite Hk, Hg. unfold respond. cbn [reply posted cache_after].
  repeat split.
Qed.

End Handlers.

(* ------------------------------------------------------------------ *)
(** ** The output filter *)

Module ReFacts.
Import Re.

Section Generic.
Variable f : N -> N -> bool.

Lemma strip_app_mono (pat x z r : jsstring) :
  strip f pat x = Some r -> strip f pat (x ++ z) = Some (r ++ z).
Proof.
  revert x. induction pat as [|p pat IH]; intros x; simpl.
  - intros [= ->]. reflexivity.
  - destruct x as [|c x]; [discriminate|]. simpl.
    destruct (f p c); [apply IH|discriminate].
Qed.

(** A match on [x ++ z] with [x] not empty is a match on [x] or runs over
    the border: a proper suffix of the pattern matches at [z]. *)
Lemma strip_straddle (x pat z r : jsstring) :
  x <> [] -> strip f pat (x ++ z) = Some r ->
  (exists r', strip f pat x = Some r')
  \/ (exists k, 1 <= k < length pat /\ strip f (skipn k pat) z = Some r).
Proof.
  revert pat. induction x as [|c x IH]; intros pat Hx; [congruence|].
  destruct pat as [|p pat].
  - intros _. left. eexists. reflexivity.
  - simpl. destruct (f p c); [|discriminate].
    destruct x as [|c' x'].
    + simpl. intros Hs. destruct pat as [|p' pat'].
      * left. eexists. reflexivity.
      * right. exists 1. split; [simpl; lia|exact Hs].
    + intros Hs.
      destruct (IH pat ltac:(discriminate) Hs) as [(r' & Hr) | (k & Hk & Hr)].
      * left. exists r'. exact Hr.
      * right. exists (S k). split; [simpl; lia|exact Hr].
Qed.

Lemma chars_here (pat t : jsstring) :
  matches_here f (Chars pat) t
  = match strip f pat t with Some _ => true | None => false end.
Proof. unfold matches_here. simpl. destruct (strip f pat t); reflexivity. Qed.

Lemma straddle_excluded (pat x z r : jsstring) :
  no_straddle f pat z = true -> x <> [] ->
  strip f pat (x ++ z) = Some r -> exists r', strip f pat x = Some r'.
Proof.
  intros Hns Hx Hs.
  destruct (strip_straddle x pat z r Hx Hs) as [Hin | (k & Hk & Hr)];
    [exact Hin|].
  unfold no_straddle in Hns. rewrite forallb_forall in Hns.
  assert (Hk' : In k (seq 1 (length pat - 1))) by (apply in_seq; lia).
  apply Hns in Hk'. rewrite Hr in Hk'. discriminate.
Qed.

Lemma chars_stable (pat z x : jsstring) :
  no_straddle f pat z = true -> x <> [] ->
  matches_here f (Chars pat) x = false ->
  matches_here f (Chars pat) (x ++ z) = false.
Proof.
  rewrite !chars_here. intros Hns Hx Hm.
  destruct (strip f pat (x ++ z)) as [r|] eqn:E; [|reflexivity].
  destruct (straddle_excluded pat x z r Hns Hx E) as (r' & Hr).
  rewrite Hr in Hm. discriminate.
Qed.

Lemma guarded_here (a : jsstring) (q : re) (t : jsstring) :
  matches_here f (Then (Chars a) (NotFollowedBy q)) t
  = match strip f a t with
    | Some r => negb (matches_here f q r)
    | None => false
    end.
Proof.
  unfold matches_here. simpl.
  destruct (strip f a t) as [r|]; simpl; [|reflexivity].
  destruct (matches f q r); reflexivity.
Qed.

Lemma one_of_here (alts : list jsstring) (t : jsstring) :
  matches_here f (one_of alts) t
  = existsb (fun a => match strip f a t with Some _ => true | None => false end)
            alts.
Proof.
  induction alts as [|a rest IH]; [reflexivity|].
  destruct rest as [|b rest].
  - simpl. rewrite orb_false_r. apply chars_here.
  - change (one_of (a :: b :: rest)) with (Or (Chars a) (one_of (b :: rest))).
    change (existsb ?g (a :: b :: rest))
      with (g a || existsb g (b :: rest)).
    rewrite <- IH. unfold matches_here. simpl matches at 1.
    destruct (strip f a t); simpl; [reflexivity|].
    reflexivity.
Qed.

Lemma one_of_extends (alts : list jsstring) (t z : jsstring) :
  matches_here f (one_of alts) t = true ->
  matches_here f (one_of alts) (t ++ z) = true.
Proof.
  rewrite !one_of_here, !existsb_exists.
  intros (a & Hin & Ha). exists a. split; [exact Hin|].
  destruct (strip f a t) as [r|] eqn:E; [|discriminate].
  now rewrite (strip_app_mono a t z r E).
Qed.

Lemma guarded_stable (a : jsstring) (alts : list jsstring) (z x : jsstring) :
  no_straddle f a z = true -> x <> [] ->
  matches_here f (Then (Chars a) (NotFollowedBy (one_of alts))) x = false ->
  matches_here f (Then (Chars a) (NotFollowedBy (one_of alts))) (x ++ z) = false.
Proof.
  rewrite !guarded_here. intros Hns Hx Hm.
  destruct (strip f a (x ++ z)) as [r|] eqn:E; [|reflexivity].
  destruct (straddle_excluded a x z r Hns Hx E) as (r' & Hr).
  rewrite Hr in Hm. rewrite (strip_app_mono a x z r' Hr) in E.
  injection E as <-. apply negb_false_iff in Hm. apply negb_false_iff.
  now apply one_of_extends.
Qed.

Lemma anywhere_cons (P : jsstring -> bool) (c : N) (t : jsstring) :
  Js.anywhere P (c :: t) = P (c :: t) || Js.anywhere P t.
Proof. reflexivity. Qed.

(** No match in [a], none in [z], and none that starts in [a] and needs
    [z]: no match in [a ++ z]. *)
Lemma anywhere_app_stable (P : jsstring -> bool) (a z : jsstring) :
  (forall x, x <> [] -> P x = false -> P (x ++ z) = false) ->
  Js.anywhere P a = false -> Js.anywhere P z = false ->
  Js.anywhere P (a ++ z) = false.
Proof.
  intros Hst. induction a as [|c a IH]; intros Ha Hz; [exact Hz|].
  rewrite anywhere_cons in Ha. apply orb_false_elim in Ha as [Hc Ha].
  change ((c :: a) ++ z) with (c :: (a ++ z)). rewrite anywhere_cons.
  apply orb_false_intro.
  - apply (Hst (c :: a)); [discriminate|exact Hc].
  - apply IH; assumption.
Qed.

End Generic.

Section Extensional.
Variables f g : N -> N -> bool.
Hypothesis fg : forall p c, f p c = g p c.

Lemma strip_ext (pat t : jsstring) : strip f pat t = strip g pat t.
Proof.
  revert t. induction pat as [|p pat IH]; intros [|c t]; simpl; try reflexivity.
  rewrite fg, IH. reflexivity.
Qed.

Lemma matches_ext (r : re) (t : jsstring) : matches f r t = matches g r t.
Proof.
  revert t. induction r as [s|a IHa b IHb|a IHa b IHb|a IHa]; intros t; simpl.
  - now rewrite strip_ext.
  - now rewrite IHa, IHb.
  - rewrite IHa. induction (matches g a t) as [|x l IHl]; simpl; [reflexivity|].
    now rewrite IHb, IHl.
  - now rewrite IHa.
Qed.

Lemma matches_here_ext (r : re) (t : jsstring) :
  matches_here f r t = matches_here g r t.
Proof. unfold matches_here. now rewrite matches_ext. Qed.

Lemma no_straddle_ext (pat z : jsstring) :
  no_straddle f pat z = no_straddle g pat z.
Proof.
  unfold no_straddle. induction (seq 1 (length pat - 1)) as [|k l IH];
    simpl; [reflexivity|].
  now rewrite strip_ext, IH.
Qed.

End Extensional.
End ReFacts.

Section OutputFilter.
Context `{CaseMapping}.
Import Route.

Lemma ascii_upper_small (c : N) : (c < 128)%N -> (ascii_upper c < 128)%N.
Proof.
  intros Hc. unfold ascii_upper. destruct (_ && _); lia.
Qed.

Lemma same_letter_folded (p c : N) : Re.same_letter p c = Re.folded p c.
Proof.
  unfold Re.folded, Re.same_letter.
  destruct (N.ltb_spec p 128) as [Hp|Hp], (N.ltb_spec c 128) as [Hc|Hc];
    try reflexivity.
  - now rewrite !canonicalize_ascii.
  - rewrite (canonicalize_ascii Hp). apply N.eqb_neq.
    pose proof (ascii_upper_small p Hp). pose proof (canonicalize_high Hc). lia.
  - rewrite (canonicalize_ascii Hc). apply N.eqb_neq.
    pose proof (ascii_upper_small c Hc). pose proof (canonicalize_high Hp). lia.
Qed.

Lemma isSafeResponse_true (text : jsstring) :
  isSafeResponse text = true <->
  forall p, In p unsafePatterns -> Re.test p text = false.
Proof.
  unfold isSafeResponse. rewrite negb_true_iff. split.
  - intros Hn p Hin. destruct (Re.test p text) eqn:E; [|reflexivity].
    assert (Hex : existsb (fun pattern => Re.test pattern text) unsafePatterns = true)
      by (apply existsb_exists; exists p; split; assumption).
    congruence.
  - intros Hall.
    destruct (existsb _ unsafePatterns) eqn:E; [|reflexivity].
    apply existsb_exists in E as (p & Hin & Hp). rewrite (Hall p Hin) in Hp.
    discriminate.
Qed.

Lemma blocked_is_unsafe (text : jsstring) (p : Re.RegExp) :
  In p unsafePatterns -> Re.test p text = true -> isSafeResponse text = false.
Proof.
  intros Hin Hp. unfold isSafeResponse. apply negb_false_iff.
  apply existsb_exists. exists p. split; assumption.
Qed.

Lemma quiet_prefix (r : Re.re) (post : jsstring) :
  quiet r post = true ->
  Js.anywhere (Re.matches_here Re.same_letter r) (Js.lit "abuse" ++ post) = false ->
  Js.anywhere (Re.matches_here Re.same_letter r)
              (Js.lit "sexual abuse" ++ post) = false.
Proof.
  intros Hq Hw. unfold quiet in Hq. cbn [forallb] in Hq.
  repeat (apply andb_prop in Hq as [?Hy Hq]).
  repeat match goal with
  | Hy : negb (Re.matches_here Re.folded r ?t) = true |- _ =>
      apply negb_true_iff in Hy;
      rewrite <- (ReFacts.matches_here_ext Re.same_letter Re.folded
                    same_letter_folded r t) in Hy
  end.
  change (Js.lit "sexual abuse" ++ post)
    with (Js.lit "sexual " ++ Js.lit "abuse" ++ post).
  set (w := Js.lit "abuse" ++ post) in *.
  change (Js.lit "sexual " ++ w)
    with (115 :: 101 :: 120 :: 117 :: 97 :: 108 :: 32 :: w)%N.
  rewrite !ReFacts.anywhere_cons.
  change (Js.lit "sexual " ++ w)
    with (115 :: 101 :: 120 :: 117 :: 97 :: 108 :: 32 :: w)%N in *.
  change (Js.lit "exual " ++ w) with (101 :: 120 :: 117 :: 97 :: 108 :: 32 :: w)%N in *.
  change (Js.lit "xual " ++ w) with (120 :: 117 :: 97 :: 108 :: 32 :: w)%N in *.
  change (Js.lit "ual " ++ w) with (117 :: 97 :: 108 :: 32 :: w)%N in *.
  change (Js.lit "al " ++ w) with (97 :: 108 :: 32 :: w)%N in *.
  change (Js.lit "l " ++ w) with (108 :: 32 :: w)%N in *.
  change (Js.lit " " ++ w) with (32 :: w)%N in *.
  repeat match goal with
  | Hy : Re.matches_here Re.same_letter r _ = false |- _ => rewrite Hy; clear Hy
  end.
  exact Hw.
Qed.

(** One blocked pattern, around the phrase. *)
Lemma pattern_around_phrase (r : Re.re) (pre post : jsstring) :
  (forall x, x <> [] ->
     Re.matches_here Re.same_letter r x = false ->
     Re.matches_here Re.same_letter r (x ++ Js.lit "sexual abuse" ++ post) = false) ->
  quiet r post = true ->
  Re.test {| Re.anchored := false; Re.body := r |} pre = false ->
  Re.test {| Re.anchored := false; Re.body := r |} (Js.lit "abuse" ++ post) = false ->
  Re.test {| Re.anchored := false; Re.body := r |}
          (pre ++ Js.lit "sexual abuse" ++ post) = false.
Proof.
  unfold Re.test, Re.test_by. cbn [Re.anchored Re.body].
  intros Hst Hq Hpre Hpost.
  apply ReFacts.anywhere_app_stable; [exact Hst|exact Hpre|].
  apply quiet_prefix; assumption.
Qed.

Ltac no_straddle_by_evaluation :=
  rewrite (ReFacts.no_straddle_ext Re.same_letter Re.folded same_letter_folded);
  vm_compute; reflexivity.

(** The carve-out: a clean text, the phrase, and a text that is clean from
    the word [abuse] on. *)
Lemma carve_out_passes (pre post : jsstring) :
  isSafeResponse pre = true ->
  isSafeResponse (Js.lit "abuse" ++ post) = true ->
  isSafeResponse (pre ++ Js.lit "sexual abuse" ++ post) = true.
Proof.
  rewrite !isSafeResponse_true. intros Hpre Hpost p Hin.
  specialize (Hpre p Hin). specialize (Hpost p Hin).
  unfold unsafePatterns in Hin. cbn [map In] in Hin.
  destruct Hin as [<-|Hin].
  { apply pattern_around_phrase; [|vm_compute; reflexivity|exact Hpre|exact Hpost].
    intros x Hx. apply ReFacts.guarded_stable; [|exact Hx].
    no_straddle_by_evaluation. }
  repeat (destruct Hin as [<-|Hin];
    [ apply pattern_around_phrase;
        [|vm_compute; reflexivity|exact Hpre|exact Hpost];
      intros x Hx; apply ReFacts.chars_stable; [|exact Hx];
      no_straddle_by_evaluation | ]).
  destruct Hin.
Qed.

Lemma chatjs_delivers (cache : JsMap.t) (key : option jsstring)
    (req : Request) (message botResponse : jsstring) :
  Js.eqb (method req) (Js.lit "POST") = true ->
  present (Route.message req) = Some message ->
  JsMap.get cache (cacheKey message (messageHistory req)) = None ->
  credential_missing key = false ->
  ChatJs.handler cache key req (Resolves botResponse)
  = deliver cache (cacheKey message (messageHistory req)) botResponse
            (Some (messages_for message (messageHistory req))).
Proof.
  intros Hpost Hmsg Hmiss Hkey. unfold ChatJs.handler.
  rewrite Hpost, Hmsg, Hmiss, Hkey. reflexivity.
Qed.

(** C6.  Let a POST with a message miss the cache of the route while the
    credential is set, and let the completion service reply with the text
    [botResponse].  If a blocked pattern matches [botResponse], the route
    answers with the redirect sentence and source ['fallback'] and stores
    that sentence under the key of the request; the client then returns
    the sentence and passes it to [cacheResponse] under the input.  If
    [botResponse] is the phrase ["sexual abuse"] between a text [pre] that
    passes the filter and a text [post] such that ["abuse" ++ post] passes
    it, then [botResponse] passes the filter and the route answers with
    [botResponse] itself and source ['api']. *)
Theorem output_filter (cache : JsMap.t) (key : option jsstring)
    (req : Request) (message : jsstring) :
  Js.eqb (method req) (Js.lit "POST") = true ->
  present (Route.message req) = Some message ->
  JsMap.get cache (cacheKey message (messageHistory req)) = None ->
  credential_missing key = false ->
  (forall botResponse pattern,
     In pattern unsafePatterns -> Re.test pattern botResponse = true ->
     let o := ChatJs.handler cache key req (Resolves botResponse) in
     reply o = Return {| status := 200;
                         json := Chat safeResponse (Js.lit "fallback") |}
     /\ JsMap.get (cache_after o) (cacheKey message (messageHistory req))
        = Some safeResponse
     /\ forall clientCache history random,
          ChatService.containsConcerningContent message
          || ChatService.hasConcerningPattern history = false ->
          ChatService.truthy_reply
            (ChatService.getCachedResponse clientCache message) = None ->
          let call :=
            ChatService.generateBotResponse clientCache message history
              (delivered {| status := 200;
                            json := Chat safeResponse (Js.lit "fallback") |})
              random in
          ChatService.result call = Return (VString safeResponse)
          /\ ChatService.cache_after call
             = ChatService.cacheResponse clientCache message safeResponse)
  /\ (forall pre post,
        isSafeResponse pre = true ->
        isSafeResponse (Js.lit "abuse" ++ post) = true ->
        let botResponse := pre ++ Js.lit "sexual abuse" ++ post in
        isSafeResponse botResponse = true
        /\ reply (ChatJs.handler cache key req (Resolves botResponse))
           = Return {| status := 200;
                       json := Chat botResponse (Js.lit "api") |}).
Proof.
  intros Hpost Hmsg Hmiss Hkey. split.
  - intros botResponse pattern Hin Hmatch o. subst o.
    rewrite (chatjs_delivers cache key req message botResponse Hpost Hmsg Hmiss Hkey).
    pose proof (blocked_is_unsafe botResponse pattern Hin Hmatch) as Hunsafe.
    destruct (deliver_outcome cache (cacheKey message (messageHistory req))
                botResponse (Some (messages_for message (messageHistory req))) Hmiss)
      as [(Hs & _) | (_ & Hr & Hg)]; [congruence|].
    split; [exact Hr|]. split; [exact Hg|].
    intros clientCache history random Hc Hn call. subst call.
    unfold ChatService.generateBotResponse. rewrite Hc, Hn.
    change (ChatService.attempt
              (delivered {| status := 200;
                            json := Chat safeResponse (Js.lit "fallback") |}))
      with (@Return jsstring jsstring safeResponse).
    split; reflexivity.
  - intros pre post Hpre Hrest botResponse.
    pose proof (carve_out_passes pre post Hpre Hrest) as Hsafe.
    fold botResponse in Hsafe. split; [exact Hsafe|].
    rewrite (chatjs_delivers cache key req message botResponse Hpost Hmsg Hmiss Hkey).
    destruct (deliver_outcome cache (cacheKey message (messageHistory req))
                botResponse (Some (messages_for message (messageHistory req))) Hmiss)
      as [(_ & Hr & _) | (Hs & _)]; [exact Hr|congruence].
Qed.

End OutputFilter.

(* ================================================================== *)
(** * Further properties of the code *)

(** ** White space *)

Lemma trimStart_empty (s : jsstring) :
  Js.trimStart s = [] <-> forallb Js.is_white s = true.
Proof.
  induction s as [|c r IH]; simpl; [tauto|].
  destruct (Js.is_white c); simpl; [exact IH|].
  split; discriminate.
Qed.

Lemma trimStart_head (s : jsstring) (c : N) (r : jsstring) :
  Js.trimStart s = c :: r -> Js.is_white c = false.
Proof.
  induction s as [|x s IH]; simpl; [discriminate|].
  destruct (Js.is_white x) eqn:E; [exact IH|].
  intros [= -> _]. exact E.
Qed.

Lemma forallb_rev {A} (P : A -> bool) (l : list A) :
  forallb P (rev l) = forallb P l.
Proof.
  induction l as [|x l IH]; [reflexivity|].
  simpl. rewrite forallb_app, IH. simpl. rewrite andb_true_r. apply andb_comm.
Qed.

(** [s.trim() === ''] exactly when [s] is made of white space. *)
Lemma trim_empty (s : jsstring) :
  Js.eqb (Js.trim s) [] = true <-> forallb Js.is_white s = true.
Proof.
  rewrite eqb_eq. unfold Js.trim. split.
  - intros Ht. apply (f_equal (@rev N)) in Ht. rewrite rev_involutive in Ht.
    simpl in Ht. apply trimStart_empty in Ht. rewrite forallb_rev in Ht.
    destruct (Js.trimStart s) as [|c r] eqn:E.
    + now apply trimStart_empty.
    + apply trimStart_head in E. simpl in Ht. rewrite E in Ht. discriminate.
  - intros Hw. apply trimStart_empty in Hw. rewrite Hw. reflexivity.
Qed.

(** ** The page: the typing animation *)

Module HomeFacts.
Import Home.

Lemma split_not_empty (sep : N) (s : jsstring) : split sep s <> [].
Proof.
  destruct s as [|c r]; simpl; [discriminate|].
  destruct (c =? sep)%N; [discriminate|].
  destruct (split sep r); discriminate.
Qed.

(** Joining the words with the separator gives the text back. *)
Lemma join_split (sep : N) (s : jsstring) :
  Route.join [sep] (split sep s) = s.
Proof.
  induction s as [|c r IH]; [reflexivity|].
  simpl. destruct (N.eqb_spec c sep) as [->|Hne].
  - pose proof (split_not_empty sep r) as Hn.
    destruct (split sep r) as [|w ws]; [congruence|].
    change (Route.join [sep] ([] :: w :: ws))
      with ([] ++ [sep] ++ Route.join [sep] (w :: ws)).
    rewrite IH. reflexivity.
  - pose proof (split_not_empty sep r) as Hn.
    destruct (split sep r) as [|w ws]; [congruence|].
    destruct ws as [|w' ws].
    + simpl in *. now rewrite IH.
    + change (Route.join [sep] ((c :: w) :: w' :: ws))
        with (c :: (w ++ [sep] ++ Route.join [sep] (w' :: ws))).
      change (Route.join [sep] (w :: w' :: ws))
        with (w ++ [sep] ++ Route.join [sep] (w' :: ws)) in IH.
      now rewrite IH.
Qed.

Lemma split_count (sep : N) (s : jsstring) :
  length (split sep s) = S (count_occ N.eq_dec s sep).
Proof.
  induction s as [|c r IH]; [reflexivity|].
  simpl. destruct (N.eqb_spec c sep) as [->|Hne].
  - destruct (N.eq_dec sep sep); [|congruence]. simpl. now rewrite IH.
  - destruct (N.eq_dec c sep); [congruence|].
    pose proof (split_not_empty sep r) as Hn.
    destruct (split sep r) as [|w ws]; [congruence|]. exact IH.
Qed.

Lemma split_lengths (sep : N) (s : jsstring) :
  list_sum (map (@length N) (split sep s)) + count_occ N.eq_dec s sep = length s.
Proof.
  induction s as [|c r IH]; [reflexivity|].
  simpl. destruct (N.eqb_spec c sep) as [->|Hne].
  - destruct (N.eq_dec sep sep); [|congruence]. simpl. lia.
  - destruct (N.eq_dec c sep); [congruence|].
    pose proof (split_not_empty sep r) as Hn.
    destruct (split sep r) as [|w ws]; [congruence|]. simpl in *. lia.
Qed.

Lemma reveal_from_last (words : list jsstring) (i : nat) (v : jsstring) :
  words <> [] ->
  last (map snd (reveal_from i v words)) []
  = v ++ lead i ++ Route.join [space] words.
Proof.
  revert i v. induction words as [|w rest IH]; intros i v Hne; [congruence|].
  destruct rest as [|w' rest].
  - reflexivity.
  - change (reveal_from i v (w :: w' :: rest))
      with ((length w * typingSpeed, v ++ lead i ++ w)
            :: reveal_from (S i) (v ++ lead i ++ w) (w' :: rest)).
    change (map snd (?x :: ?l)) with (snd x :: map snd l).
    assert (Hn : map snd (reveal_from (S i) (v ++ lead i ++ w) (w' :: rest)) <> [])
      by (simpl; discriminate).
    destruct (map snd (reveal_from (S i) (v ++ lead i ++ w) (w' :: rest)))
      as [|t ts] eqn:E; [congruence|].
    change (last (snd (length w * typingSpeed, v ++ lead i ++ w) :: t :: ts) [])
      with (last (t :: ts) []).
    rewrite <- E, IH by discriminate.
    change (Route.join [space] (w :: w' :: rest))
      with (w ++ [space] ++ Route.join [space] (w' :: rest)).
    change (lead (S i)) with [space].
    now rewrite <- !app_assoc.
Qed.

Lemma reveal_from_prefixes (words : list jsstring) (i : nat) (v shown : jsstring) :
  In shown (map snd (reveal_from i v words)) ->
  exists rest, v ++ lead i ++ Route.join [space] words = shown ++ rest.
Proof.
  revert i v. induction words as [|w rest IH]; intros i v; [intros []|].
  change (reveal_from i v (w :: rest))
    with ((length w * typingSpeed, v ++ lead i ++ w)
          :: reveal_from (S i) (v ++ lead i ++ w) rest).
  intros [<-|Hin].
  - simpl snd. destruct rest as [|w' rest].
    + exists []. now rewrite app_nil_r.
    + exists ([space] ++ Route.join [space] (w' :: rest)).
      change (Route.join [space] (w :: w' :: rest))
        with (w ++ [space] ++ Route.join [space] (w' :: rest)).
      now rewrite <- !app_assoc.
  - destruct rest as [|w' rest]; [destruct Hin|].
    destruct (IH (S i) _ Hin) as (r & Hr). exists r. rewrite <- Hr.
    change (Route.join [space] (w :: w' :: rest))
      with (w ++ [space] ++ Route.join [space] (w' :: rest)).
    change (lead (S i)) with [space].
    now rewrite <- !app_assoc.
Qed.

Lemma reveal_from_steps (words : list jsstring) (i : nat) (v : jsstring) :
  length (reveal_from i v words) = length words
  /\ list_sum (map fst (reveal_from i v words))
     = typingSpeed * list_sum (map (@length N) words).
Proof.
  revert i v. induction words as [|w rest IH]; intros i v; [split; reflexivity|].
  simpl. destruct (IH (S i) (v ++ (if 0 <? i then [space] else []) ++ w)) as (Hl & Hs).
  split; [now rewrite Hl|]. rewrite Hs. unfold typingSpeed. lia.
Qed.

Lemma reveal_last_shown (response : jsstring) :
  last (map snd (reveal response)) [] = response
  /\ map snd (reveal response) <> [].
Proof.
  unfold reveal. split.
  - rewrite reveal_from_last by apply split_not_empty.
    simpl. apply join_split.
  - pose proof (split_not_empty space response) as Hn.
    destruct (split space response); [congruence|discriminate].
Qed.

Lemma dots_length (n : nat) :
  Nat.iter n next_dots [] = repeat 46%N (n mod 4).
Proof.
  induction n as [|n IH]; [reflexivity|].
  simpl Nat.iter. rewrite IH. unfold next_dots. rewrite repeat_length.
  pose proof (Nat.mod_upper_bound n 4 ltac:(discriminate)) as Hb.
  assert (Hs : S n mod 4 = if n mod 4 =? 3 then 0 else S (n mod 4)).
  { replace (S n) with (1 + n) by lia.
    rewrite Nat.Div0.add_mod. change (1 mod 4) with 1.
    destruct (Nat.eqb_spec (n mod 4) 3) as [->|Hne]; [reflexivity|].
    apply Nat.mod_small. lia. }
  rewrite Hs.
  destruct (Nat.eqb_spec (n mod 4) 3) as [->|Hne]; [reflexivity|].
  destruct (Nat.leb_spec 3 (n mod 4)); [lia|].
  change (Js.lit ".") with [46%N]. now rewrite <- repeat_cons.
Qed.

End HomeFacts.

Section Typing.
Import Home HomeFacts.

(** X1.  The word-by-word reveal of a response ends with the response
    itself; every text shown on the way is a beginning of the response;
    there is one step per word, that is one more than the response has
    spaces; and the delays add up to 20 ms for every character that is not
    a space. *)
Theorem reveal_ends_with_response (response : jsstring) :
  last (map snd (reveal response)) [] = response
  /\ (forall shown, In shown (map snd (reveal response)) ->
        exists rest, response = shown ++ rest)
  /\ length (reveal response) = S (count_occ N.eq_dec response space)
  /\ list_sum (map fst (reveal response)) + 20 * count_occ N.eq_dec response space
     = 20 * length response.
Proof.
  unfold reveal. split; [|split; [|split]].
  - rewrite reveal_from_last by apply split_not_empty.
    simpl. apply join_split.
  - intros shown Hin. destruct (reveal_from_prefixes _ _ _ _ Hin) as (rest & Hr).
    exists rest. rewrite <- Hr. simpl. symmetry. apply join_split.
  - rewrite (proj1 (reveal_from_steps _ _ _)). apply split_count.
  - rewrite (proj2 (reveal_from_steps _ _ _)). unfold typingSpeed.
    pose proof (split_lengths space response). lia.
Qed.

(** X2.  Started from no dots, the typing indicator shows [n mod 4] dots
    after [n] ticks of its timer: it runs through 0, 1, 2, 3 dots and never
    shows more than three. *)
Theorem typing_dots_cycle (n : nat) :
  Nat.iter n next_dots [] = repeat 46%N (n mod 4)
  /\ length (Nat.iter n next_dots []) <= 3
  /\ Nat.iter (n + 4) next_dots [] = Nat.iter n next_dots [].
Proof.
  split; [apply dots_length|]. split.
  - rewrite dots_length, repeat_length.
    pose proof (Nat.mod_upper_bound n 4 ltac:(discriminate)). lia.
  - rewrite !dots_length. f_equal.
    rewrite Nat.Div0.add_mod, Nat.Div0.mod_same, Nat.add_0_r.
    apply Nat.Div0.mod_mod.
Qed.

End Typing.

(** ** The chat service, beyond the claims *)

Section ServiceMore.
Context `{CaseMapping}.
Import ChatService.

Local Abbreviation from_user :=
  (fun msg : Turn => Js.eqb (sender msg) (Js.lit "user")).

Lemma slice_last_suffix {A} (n : nat) (l : list A) :
  length (slice_last n l) <= n
  /\ exists earlier, l = earlier ++ slice_last n l.
Proof.
  unfold slice_last. split.
  - rewrite length_skipn. lia.
  - exists (firstn (length l - n) l). symmetry. apply firstn_skipn.
Qed.

(** X3.  A call sends no request when the input or the history is
    concerning or when a reply is cached or canned for the input, and
    exactly one request otherwise; that request carries the input as typed
    and the last turns of the history, at most five, in their order. *)
Theorem one_request_per_miss (cache : JsMap.t) (userInput : jsstring)
    (history : list Turn) (net : fetch_outcome) (random : Q) :
  let requests :=
    filter is_request
      (effects (generateBotResponse cache userInput history net random)) in
  (requests =
     if containsConcerningContent userInput || hasConcerningPattern history
     then []
     else match truthy_reply (getCachedResponse cache userInput) with
          | Some _ => []
          | None => [Fetch userInput (slice_last 5 history)]
          end)
  /\ length (slice_last 5 history) <= 5
  /\ exists earlier, history = earlier ++ slice_last 5 history.
Proof.
  cbv zeta. split; [|apply slice_last_suffix].
  unfold generateBotResponse.
  destruct (_ || _); [reflexivity|].
  destruct (truthy_reply _); [reflexivity|].
  destruct (attempt net); cbn [effects]; destruct (race net); reflexivity.
Qed.

Lemma count_concerning (messages : list Turn) :
  hasConcerningPattern messages =
  (2 <=? length (filter (fun msg => containsConcerningContent (text msg))
                   (slice_last 3 (filter (fun msg => Js.eqb (sender msg) (Js.lit "user"))
                                    messages)))).
Proof.
  unfold hasConcerningPattern.
  now rewrite (count_by_fold (fun msg => containsConcerningContent (text msg))).
Qed.

Lemma users_app (a b : list Turn) :
  filter (fun msg => Js.eqb (sender msg) (Js.lit "user")) (a ++ b)
  = filter (fun msg => Js.eqb (sender msg) (Js.lit "user")) a
    ++ filter (fun msg => Js.eqb (sender msg) (Js.lit "user")) b.
Proof. apply filter_app. Qed.

(** X4.  The pattern check looks at the user turns only and at no more
    than three of them: turns of the bot, wherever they stand, change
    nothing, and with fewer than two user turns in the history the check is
    false whatever they say. *)
Theorem pattern_ignores_bot_turns (messages : list Turn) :
  hasConcerningPattern
    (filter (fun msg => Js.eqb (sender msg) (Js.lit "user")) messages)
  = hasConcerningPattern messages
  /\ (length (filter (fun msg => Js.eqb (sender msg) (Js.lit "user")) messages) <= 1 ->
      hasConcerningPattern messages = false).
Proof.
  split.
  - rewrite !count_concerning. f_equal. f_equal. f_equal. f_equal.
    set (u := fun msg : Turn => Js.eqb (sender msg) (Js.lit "user")).
    induction messages as [|m l IH]; [reflexivity|].
    simpl. destruct (u m) eqn:E; simpl; [rewrite E; now rewrite IH|exact IH].
  - intros Hl. rewrite count_concerning. apply Nat.leb_gt.
    set (us := filter _ messages) in *.
    pose proof (filter_length_le (fun msg => containsConcerningContent (text msg))
                  (slice_last 3 us)) as Hf.
    unfold slice_last in *. rewrite length_skipn in Hf. lia.
Qed.

Lemma users_of_bots (bots : list Turn) :
  Forall (fun msg => Js.eqb (sender msg) (Js.lit "user") = false) bots ->
  filter (fun msg => Js.eqb (sender msg) (Js.lit "user")) bots = [].
Proof.
  induction 1 as [|m l Hm _ IH]; [reflexivity|]. simpl. now rewrite Hm.
Qed.

Lemma pattern_of_users (messages users : list Turn) :
  filter (fun msg => Js.eqb (sender msg) (Js.lit "user")) messages = users ->
  hasConcerningPattern messages =
  (2 <=? length (filter (fun msg => containsConcerningContent (text msg))
                   (slice_last 3 users))).
Proof. intros <-. apply count_concerning. Qed.

(** X5.  After two concerning user messages in a row (only turns of the
    bot between them) the override stays for two more messages: with a
    history whose user turns end in these two, and with one whose user
    turns end in these two and a harmless one, every input gets the safety
    message (harmless, greeting or cached, with no request and nothing
    stored); once two harmless user turns have followed, the history no
    longer has the pattern.  Turns of the bot, wherever they stand, make
    no difference. *)
Theorem override_lasts_two_messages
    (h bots1 bots2 bots3 bots4 : list Turn) (a b x y : Turn) :
  Forall (fun msg => Js.eqb (sender msg) (Js.lit "user") = false)
         (bots1 ++ bots2 ++ bots3 ++ bots4) ->
  Js.eqb (sender a) (Js.lit "user") = true ->
  Js.eqb (sender b) (Js.lit "user") = true ->
  Js.eqb (sender x) (Js.lit "user") = true ->
  Js.eqb (sender y) (Js.lit "user") = true ->
  containsConcerningContent (text a) = true ->
  containsConcerningContent (text b) = true ->
  containsConcerningContent (text x) = false ->
  containsConcerningContent (text y) = false ->
  let after_two := h ++ [a] ++ bots1 ++ [b] ++ bots2 in
  let after_three := after_two ++ [x] ++ bots3 in
  let after_four := after_three ++ [y] ++ bots4 in
  (forall history, history = after_two \/ history = after_three ->
   forall cache userInput net random,
     generateBotResponse cache userInput history net random =
     {| result := Return (VString generateSafetyResourcesMessage);
        cache_after := cache;
        effects := [ConsoleLog (Js.lit "Concerning content detected in conversation")] |})
  /\ hasConcerningPattern after_four = false.
Proof.
  intros Hbots Ha Hb Hx Hy Ca Cb Cx Cy after_two after_three after_four.
  apply Forall_app in Hbots as (B1 & Hbots).
  apply Forall_app in Hbots as (B2 & Hbots).
  apply Forall_app in Hbots as (B3 & B4).
  assert (U2 : filter from_user after_two = filter from_user h ++ [a; b]).
  { unfold after_two. rewrite !filter_app.
    rewrite (users_of_bots bots1 B1), (users_of_bots bots2 B2).
    cbn [filter app]. rewrite Ha, Hb. now rewrite !app_nil_r. }
  assert (U3 : filter from_user after_three = (filter from_user h ++ [a]) ++ [b; x]).
  { unfold after_three. rewrite !filter_app, U2.
    rewrite (users_of_bots bots3 B3). cbn [filter app]. rewrite Hx.
    now rewrite app_nil_r, <- !app_assoc. }
  assert (U4 : filter from_user after_four
               = (filter from_user h ++ [a]) ++ [b; x; y]).
  { unfold after_four. rewrite !filter_app, U3.
    rewrite (users_of_bots bots4 B4). cbn [filter app]. rewrite Hy.
    now rewrite app_nil_r, <- !app_assoc. }
  assert (P2 : hasConcerningPattern after_two = true).
  { rewrite (pattern_of_users _ _ U2). apply Nat.leb_le.
    unfold slice_last. rewrite length_app. cbn [length].
    destruct (filter from_user h) as [|t us _] using rev_ind.
    - cbn [length app skipn Nat.sub Nat.add filter]. rewrite Ca, Cb.
      cbn [length]. lia.
    - rewrite length_app. cbn [length].
      replace (skipn (length us + 1 + 2 - 3) ((us ++ [t]) ++ [a; b]))
        with [t; a; b].
      2: { replace (length us + 1 + 2 - 3) with (length us) by lia.
           rewrite <- app_assoc, skipn_app, skipn_all, Nat.sub_diag.
           reflexivity. }
      cbn [filter]. rewrite Ca, Cb.
      destruct (containsConcerningContent (text t)); cbn [length]; lia. }
  assert (P3 : hasConcerningPattern after_three = true).
  { rewrite (pattern_of_users _ _ U3).
    rewrite <- app_assoc. change ([a] ++ [b; x]) with [a; b; x].
    rewrite (slice_last_app 3 (filter from_user h) [a; b; x]) by (left; reflexivity).
    cbn [filter]. now rewrite Ca, Cb, Cx. }
  split.
  - intros history [-> | ->] cache userInput net random;
      apply safety_outcome; [rewrite P2|rewrite P3]; apply orb_true_r.
  - rewrite (pattern_of_users _ _ U4).
    rewrite (slice_last_app 3 (filter from_user h ++ [a]) [b; x; y])
      by (left; reflexivity).
    cbn [filter]. now rewrite Cb, Cx, Cy.
Qed.

(** *** Storing and looking up *)

Lemma getCachedResponse_get (cache : JsMap.t) (input v : jsstring) :
  JsMap.get cache (toLowerCase input) = Some v ->
  getCachedResponse cache input = Some v.
Proof.
  intros Hg. unfold getCachedResponse, JsMap.has. now rewrite Hg.
Qed.

(** X6.  What [cacheResponse] stores for an admissible input is found by
    [getCachedResponse] under every spelling of the input that has the
    same lower-case form, before any pattern is tried; and while the cache
    has fewer than 100 entries the store changes the lookup of no input
    with another lower-case form. *)
Theorem store_then_lookup (cache : JsMap.t) (input response : jsstring) :
  JsMap.size cache <= 100 ->
  4 <= length input <= 99 ->
  containsConcerningContent input = false ->
  (forall spelling,
     toLowerCase spelling = toLowerCase input ->
     getCachedResponse (cacheResponse cache input response) spelling
     = Some response)
  /\ (JsMap.size cache < 100 ->
      forall other,
        toLowerCase other <> toLowerCase input ->
        getCachedResponse (cacheResponse cache input response) other
        = getCachedResponse cache other).
Proof.
  intros Hsize Hlen Hsafe. rewrite cacheResponse_unfold.
  rewrite (proj2 (admission_test input) (conj Hlen Hsafe)). split.
  - intros spelling Hs. apply getCachedResponse_get. rewrite Hs.
    now apply JsMapFacts.get_set_bounded_same.
  - intros Hlt other Hne.
    assert (Hg : JsMap.get (JsMap.set_bounded cache (toLowerCase input) response)
                           (toLowerCase other)
                 = JsMap.get cache (toLowerCase other)).
    { unfold JsMap.set_bounded.
      pose proof (JsMapFacts.size_set cache (toLowerCase input) response) as Hs.
      destruct (Nat.ltb_spec 100 (JsMap.size (JsMap.set cache (toLowerCase input) response)))
        as [Hgt|_].
      - destruct (JsMap.get cache (toLowerCase input)); lia.
      - apply JsMapFacts.get_set_other. congruence. }
    unfold getCachedResponse, JsMap.has. now rewrite Hg.
Qed.

(** *** Responses that are not [ok] *)

Lemma on_error_by_classification (message : jsstring) (random : Q) :
  ChatService.on_error message random =
  match classification message with
  | Some 0 => VString timeout_reply
  | Some 1 => VString network_reply
  | Some 2 => VString api_key_reply
  | Some 3 => VString model_reply
  | Some 4 => VString server_reply
  | Some _ => VString gateway_reply
  | None =>
      match at_index fallbackResponses
              (Qfloor (random * inject_Z (Z.of_nat (length fallbackResponses))))
      with
      | Some s => VString s
      | None => VUndefined
      end
  end.
Proof.
  unfold ChatService.on_error, classification.
  destruct (Js.eqb _ _); [reflexivity|].
  destruct (_ || _); [reflexivity|].
  destruct (_ || _); [reflexivity|].
  destruct (_ || _); [reflexivity|].
  destruct (_ || _); [reflexivity|].
  destruct (Js.includes _ _); reflexivity.
Qed.

Lemma statuses_checked : statuses_fall_through = true.
Proof. vm_compute. reflexivity. Qed.

Lemma status_classification (status : N) :
  (100 <= status <= 999)%N ->
  match classification (http_error_message status) with
  | None => status <> 500%N /\ status <> 502%N
  | Some 5 => status = 502%N
  | Some 4 => status = 500%N
  | Some _ => False
  end.
Proof.
  intros Hs. pose proof statuses_checked as Hall.
  unfold statuses_fall_through in Hall. rewrite forallb_forall in Hall.
  specialize (Hall (N.to_nat status)).
  rewrite N2Nat.id in Hall. cbv zeta in Hall.
  assert (Hin : In (N.to_nat status) (seq 100 900)) by (apply in_seq; lia).
  specialize (Hall Hin).
  destruct (classification (http_error_message status)) as [[|[|[|[|[|[|k]]]]]]|];
    try discriminate.
  - now apply N.eqb_eq.
  - now apply N.eqb_eq.
  - apply andb_prop in Hall as (H5 & H2).
    apply negb_true_iff in H5, H2. split; now apply N.eqb_neq.
Qed.

Lemma not_ok_message (status : N) (p : payload) :
  ok status = false -> status <> 500%N ->
  attempt (FetchResolves status p) = Throw (http_error_message status).
Proof.
  intros Hok Hne. unfold attempt, race, on_response. rewrite Hok.
  cbn [negb]. apply N.eqb_neq in Hne. rewrite Hne. reflexivity.
Qed.

(** X7.  When the route answers with a three-digit status outside 200-299
    the body is not shown to the user, whatever it holds: status 500 gets
    the server sentence, status 502 the gateway sentence, and every other
    status (401, 403, 404, 429, 503, ...) one of the four generic
    sentences.  The sentences about the API key, the model, the network
    and the timeout are never given for such a response. *)
Theorem response_not_ok (cache : JsMap.t) (userInput : jsstring)
    (history : list Turn) (status : N) (p : payload) (random : Q) :
  (100 <= status <= 999)%N -> ok status = false ->
  (0 <= random)%Q -> (random < 1)%Q ->
  containsConcerningContent userInput || hasConcerningPattern history = false ->
  truthy_reply (getCachedResponse cache userInput) = None ->
  let call := generateBotResponse cache userInput history
                (FetchResolves status p) random in
  cache_after call = cache
  /\ exists s, result call = Return (VString s)
     /\ (status = 500%N -> s = server_reply)
     /\ (status = 502%N -> s = gateway_reply)
     /\ (status <> 500%N -> status <> 502%N -> In s fallbackResponses).
Proof.
  intros Hs Hok A B Hc Hn call.
  destruct (N.eq_dec status 500) as [->|H500].
  - destruct (failed_outcome cache userInput _ history (FetchResolves 500 p) random
                Hc Hn (server_error_message p)) as (Hr & Hcache).
    split; [exact Hcache|]. exists server_reply. subst call. rewrite Hr.
    split; [reflexivity|]. split; [reflexivity|]. split; [discriminate|congruence].
  - destruct (failed_outcome cache userInput _ history (FetchResolves status p) random
                Hc Hn (not_ok_message status p Hok H500)) as (Hr & Hcache).
    split; [exact Hcache|]. subst call. rewrite Hr, on_error_by_classification.
    pose proof (status_classification status Hs) as Hk.
    destruct (classification (http_error_message status))
      as [[|[|[|[|[|[|k]]]]]]|]; try contradiction.
    + exists gateway_reply. split; [reflexivity|].
      split; [congruence|]. split; [reflexivity|congruence].
    + destruct (fallback_reply random A B) as (s & -> & Hin).
      exists s. split; [reflexivity|]. destruct Hk as (K5 & K2).
      split; [congruence|]. split; [congruence|]. intros _ _. exact Hin.
Qed.

(** *** Replies of the route that are not answers *)

Lemma delivered_chat (status : N) (text source : jsstring) :
  ok status = true -> Js.truthy text = true ->
  attempt (delivered {| Route.status := status;
                        Route.json := Route.Chat text source |})
  = Return text.
Proof.
  intros Hok Ht. unfold attempt, delivered, race, on_response.
  cbn [Route.status Route.json]. rewrite Hok. cbn [negb parse bind].
  unfold result_response. now rewrite Ht.
Qed.

(** X8.  The chat service does not look at the [source] of a reply.  A
    reply that the route sends with a 2xx status is returned whatever its
    source is, ['timeout'], ['auth_error'] and ['error'] included.  When
    the input has 4 to 99 characters the reply is also stored under the
    input, and the next call with the same input gets the same text from
    the cache and no request is sent, whatever the route would answer now;
    when the input is shorter or longer nothing is stored. *)
Theorem degraded_reply_is_replayed (cache : JsMap.t)
    (userInput text source : jsstring) (history : list Turn) (status : N)
    (net : fetch_outcome) (random1 random2 : Q) :
  JsMap.size cache <= 100 ->
  containsConcerningContent userInput || hasConcerningPattern history = false ->
  truthy_reply (getCachedResponse cache userInput) = None ->
  ok status = true -> Js.truthy text = true ->
  let first :=
    generateBotResponse cache userInput history
      (delivered {| Route.status := status;
                    Route.json := Route.Chat text source |}) random1 in
  let second :=
    generateBotResponse (cache_after first) userInput history net random2 in
  result first = Return (VString text)
  /\ (4 <= length userInput <= 99 ->
      JsMap.get (cache_after first) (toLowerCase userInput) = Some text
      /\ result second = Return (VString text)
      /\ filter is_request (effects second) = [])
  /\ (length userInput <= 3 \/ 100 <= length userInput ->
      cache_after first = cache).
Proof.
  intros Hsize Hc Hn Hok Ht first second.
  assert (Hsafe : containsConcerningContent userInput = false)
    by (apply orb_false_elim in Hc; tauto).
  assert (Hfirst : first =
    {| result := Return (VString text);
       cache_after := cacheResponse cache userInput text;
       effects := effects first |}).
  { subst first. unfold generateBotResponse. rewrite Hc, Hn.
    rewrite (delivered_chat status text source Hok Ht). reflexivity. }
  split; [rewrite Hfirst; reflexivity|]. split.
  - intros Hlen.
    assert (Hg : JsMap.get (cache_after first) (toLowerCase userInput) = Some text).
    { rewrite Hfirst. cbn [cache_after]. rewrite cacheResponse_unfold.
      rewrite (proj2 (admission_test userInput) (conj Hlen Hsafe)).
      now apply JsMapFacts.get_set_bounded_same. }
    assert (Hh : truthy_reply (getCachedResponse (cache_after first) userInput)
                 = Some text).
    { rewrite (getCachedResponse_get _ _ _ Hg). unfold truthy_reply. now rewrite Ht. }
    split; [exact Hg|].
    subst second. rewrite (hit_outcome _ _ text _ _ _ Hc Hh).
    split; reflexivity.
  - intros Hlen. rewrite Hfirst. cbn [cache_after]. rewrite cacheResponse_unfold.
    destruct ((3 <? length userInput) && (length userInput <? 100)
              && negb (containsConcerningContent userInput)) eqn:E; [|reflexivity].
    apply admission_test in E. lia.
Qed.

End ServiceMore.

(** ** The page: sending a message *)

Section Page.
Context `{CaseMapping}.
Import ChatService Home.

Lemma call_returns (cache : JsMap.t) (userInput : jsstring)
    (history : list Turn) (net : fetch_outcome) (random : Q) :
  (0 <= random)%Q -> (random < 1)%Q ->
  exists response,
    result (generateBotResponse cache userInput history net random)
    = Return (VString response).
Proof.
  intros A B. unfold generateBotResponse.
  destruct (_ || _); [eexists; reflexivity|].
  destruct (truthy_reply _); [eexists; reflexivity|].
  destruct (attempt net) as [r|m]; cbn [result]; [eexists; reflexivity|].
  destruct (on_error_literal m random A B) as (s & -> & _).
  eexists. reflexivity.
Qed.

(** X9.  [handleSendMessage] does nothing for an input made of white space
    only.  For any other input it appends two messages: the input as typed,
    from the user, and the reply of [generateBotResponse] for that input and
    the messages that were there before, from the bot and never marked as an
    error (the [catch] of [handleSendMessage] is not reached); the input
    field is emptied, the error is cleared, and the typing animation ends
    with the full reply. *)
Theorem send_appends_question_and_answer (st : State) (cache : JsMap.t)
    (net : fetch_outcome) (random : Q) :
  (0 <= random)%Q -> (random < 1)%Q ->
  let out := handleSendMessage st cache net random in
  (forallb Js.is_white (input st) = true ->
   out = {| state_after := st; service_cache := cache;
            typed := []; service_effects := [] |})
  /\ (forallb Js.is_white (input st) = false ->
      exists response,
        result (generateBotResponse cache (input st)
                  (map as_turn (messages st)) net random)
        = Return (VString response)
        /\ messages (state_after out)
           = messages st
             ++ [ {| msg_sender := Js.lit "user"; msg_text := input st;
                     isError := false |};
                  {| msg_sender := Js.lit "bot"; msg_text := response;
                     isError := false |} ]
        /\ input (state_after out) = []
        /\ error (state_after out) = None
        /\ last (typed out) [] = response).
Proof.
  intros A B out. subst out. unfold handleSendMessage. split.
  - intros Hw. apply trim_empty in Hw. now rewrite Hw.
  - intros Hw.
    destruct (Js.eqb (Js.trim (input st)) []) eqn:E.
    { apply trim_empty in E. congruence. }
    cbn [msg_text].
    destruct (call_returns cache (input st) (map as_turn (messages st)) net random A B)
      as (response & Hr).
    exists response. rewrite Hr. cbn [state_after messages input error typed].
    split; [reflexivity|]. split; [now rewrite <- app_assoc|].
    split; [reflexivity|]. split; [reflexivity|].
    destruct (HomeFacts.reveal_last_shown response) as (Hl & Hne).
    destruct (map snd (reveal response)) as [|t ts]; [congruence|exact Hl].
Qed.

End Page.

(** ** The route, beyond the claims *)

Section RouteMore.
Context `{CaseMapping}.
Import Route.

Lemma anywhere_ext (P Q : jsstring -> bool) (t : jsstring) :
  (forall x, P x = Q x) -> Js.anywhere P t = Js.anywhere Q t.
Proof.
  intros HPQ. induction t as [|c t IH]; simpl; rewrite HPQ; [reflexivity|].
  now rewrite IH.
Qed.

(** The filter, with [same_letter] decided on ASCII: this form evaluates
    on a text of which the ASCII part decides. *)
Lemma isSafeResponse_folded (text : jsstring) :
  isSafeResponse text
  = negb (existsb (fun pattern => Re.test_by Re.folded pattern text) unsafePatterns).
Proof.
  unfold isSafeResponse. f_equal.
  induction unsafePatterns as [|p l IH]; [reflexivity|].
  simpl. rewrite IH. f_equal.
  unfold Re.test, Re.test_by. destruct (Re.anchored p).
  - apply ReFacts.matches_here_ext, same_letter_folded.
  - apply anywhere_ext. intros x.
    apply ReFacts.matches_here_ext, same_letter_folded.
Qed.

Lemma safeResponse_passes : isSafeResponse safeResponse = true.
Proof. rewrite isSafeResponse_folded. vm_compute. reflexivity. Qed.

Lemma timeout_response_passes : isSafeResponse timeout_response = true.
Proof. rewrite isSafeResponse_folded. vm_compute. reflexivity. Qed.

Lemma api_key_response_passes : isSafeResponse api_key_response = true.
Proof. rewrite isSafeResponse_folded. vm_compute. reflexivity. Qed.

(** What a call of the handler of [chat.js] does to the cache: nothing, or
    it stores, under the key of the request, the text it answers with,
    which is a reply that passes the filter or the redirect sentence. *)
Lemma chatjs_cache_step (cache : JsMap.t) (key : option jsstring)
    (req : Request) (remote : remote_outcome) :
  let o := ChatJs.handler cache key req remote in
  cache_after o = cache
  \/ exists message text source,
       present (Route.message req) = Some message
       /\ reply o = Return {| status := 200; json := Chat text source |}
       /\ isSafeResponse text = true
       /\ (source = Js.lit "api" \/ source = Js.lit "fallback")
       /\ (cache_after o
           = JsMap.set_bounded cache (cacheKey message (messageHistory req)) text
           \/ cache_after o
              = JsMap.set cache (cacheKey message (messageHistory req)) text).
Proof.
  cbv zeta. unfold ChatJs.handler.
  destruct (negb _); [left; reflexivity|].
  destruct (present _) as [message|]; [|left; reflexivity].
  destruct (JsMap.get cache _); [left; reflexivity|].
  destruct (credential_missing key).
  { rewrite fresh_error_not_aborted. left. reflexivity. }
  destruct remote as [c|m|e].
  - right. unfold deliver, respond. destruct (isSafeResponse c) eqn:E.
    + exists message, c, (Js.lit "api").
      cbn [reply cache_after].
      split; [reflexivity|]. split; [reflexivity|]. split; [exact E|].
      split; left; reflexivity.
    + exists message, safeResponse, (Js.lit "fallback").
      cbn [reply cache_after]. split; [reflexivity|]. split; [reflexivity|].
      split; [exact safeResponse_passes|].
      split; right; reflexivity.
  - rewrite type_error_not_aborted. left. reflexivity.
  - destruct (Js.eqb _ _ || _); [left; reflexivity|].
    destruct (match response _ with Some _ => _ | None => _ end); left; reflexivity.
Qed.

Lemma route_values_pass (cache : JsMap.t) :
  route_reachable cache ->
  forall e, In e cache -> isSafeResponse (snd e) = true.
Proof.
  induction 1 as [|cache key req remote _ IH]; [intros e []|].
  destruct (chatjs_cache_step cache key req remote)
    as [-> | (message & text & source & _ & _ & Hsafe & _ & [-> | ->])];
    [exact IH| |]; intros e Hin.
  - apply JsMapFacts.in_set_bounded, JsMapFacts.in_set in Hin.
    destruct Hin as [Hin|[-> _]]; [now apply IH|exact Hsafe].
  - apply JsMapFacts.in_set in Hin.
    destruct Hin as [Hin|[-> _]]; [now apply IH|exact Hsafe].
Qed.

(** A reply with a [response] text has status 200 and a text that passes
    the filter. *)
Lemma chatjs_chat_reply (cache : JsMap.t) (key : option jsstring)
    (req : Request) (remote : remote_outcome) (text source : jsstring) (n : N) :
  route_reachable cache ->
  reply (ChatJs.handler cache key req remote)
  = Return {| status := n; json := Chat text source |} ->
  n = 200%N /\ isSafeResponse text = true.
Proof.
  intros Hreach. unfold ChatJs.handler.
  destruct (negb _); [discriminate|].
  destruct (present _) as [message|]; [|discriminate].
  destruct (JsMap.get cache _) as [cached|] eqn:Eg.
  - unfold respond; cbn [reply]. intros [= <- <- _]. split; [reflexivity|].
    apply (route_values_pass cache Hreach
             (cacheKey message (messageHistory req), cached)).
    now apply get_some_in.
  - destruct (credential_missing key).
    + rewrite fresh_error_not_aborted. discriminate.
    + destruct remote as [c|m|e].
      * unfold deliver, respond. destruct (isSafeResponse c) eqn:E;
          cbn [reply]; intros [= <- <- _]; (split; [reflexivity|]);
          [exact E|exact safeResponse_passes].
      * rewrite type_error_not_aborted. discriminate.
      * destruct (Js.eqb _ _ || _).
        -- unfold respond; cbn [reply]. intros [= <- <- _].
           split; [reflexivity|exact timeout_response_passes].
        -- destruct (match response _ with Some _ => _ | None => _ end).
           ++ unfold respond; cbn [reply]. intros [= <- <- _].
              split; [reflexivity|exact api_key_response_passes].
           ++ discriminate.
Qed.

(** X10.  In every state the cache of the route can reach, every stored
    text passes [isSafeResponse], and so does every text that the handler
    of [chat.js] sends, whether it comes from the service, from the cache
    or from the handler itself; such a reply has status 200.  A text that
    the filter rejects is never sent and never stored. *)
Theorem route_sends_only_filtered_text (cache : JsMap.t)
    (key : option jsstring) (req : Request) (remote : remote_outcome) :
  route_reachable cache ->
  (forall e, In e cache -> isSafeResponse (snd e) = true)
  /\ (forall e, In e (cache_after (ChatJs.handler cache key req remote)) ->
                isSafeResponse (snd e) = true)
  /\ forall n text source,
       reply (ChatJs.handler cache key req remote)
       = Return {| status := n; json := Chat text source |} ->
       n = 200%N /\ isSafeResponse text = true.
Proof.
  intros Hreach. split; [|split].
  - now apply route_values_pass.
  - apply route_values_pass, route_call, Hreach.
  - intros n text source. now apply chatjs_chat_reply.
Qed.

(** *** The replies that [chat.js] never sends *)

Local Ltac replied status_proof source_proof :=
  split; [split; discriminate|];
  split; [split; [intros _; eexists; reflexivity|reflexivity]|];
  split; [discriminate|];
  intros r [= <-]; cbn [status json];
  split; [status_proof|intros text source [= _ <-]; source_proof].

Local Ltac rejected :=
  split; [split; reflexivity|];
  split; [split; [discriminate|intros [r Hr]; discriminate Hr]|];
  split; [intros _; reflexivity|];
  intros r Hr; discriminate Hr.

(** X11.  The handler of [chat.js] rejects exactly on the requests that
    reach its error path, always with the [ReferenceError] of its outer
    [catch] and with the cache untouched; on all other requests it replies.
    A reply has status 405, 400 or 200, and a reply with a [response] text
    has source ['cache'], ['api'], ['fallback'] or ['timeout']: the reply
    with status 500 and the reply with source ['auth_error'] that the
    handler is written to send are never sent. *)
Theorem chatjs_never_sends_its_error_replies (cache : JsMap.t)
    (key : option jsstring) (req : Request) (remote : remote_outcome) :
  let o := ChatJs.handler cache key req remote in
  (reaches_error_path cache key req remote = true
   <-> reply o = Throw (ReferenceError (Js.lit "timeoutId is not defined")))
  /\ (reaches_error_path cache key req remote = false
      <-> exists r, reply o = Return r)
  /\ (reaches_error_path cache key req remote = true -> cache_after o = cache)
  /\ forall r, reply o = Return r ->
       In (status r) [405; 400; 200]%N
       /\ forall text source, json r = Chat text source ->
            In source [Js.lit "cache"; Js.lit "api"; Js.lit "fallback";
                       Js.lit "timeout"].
Proof.
  cbv zeta. unfold reaches_error_path, ChatJs.handler.
  destruct (Js.eqb (method req) (Js.lit "POST")); cbn [negb andb];
    [|unfold respond; cbn [reply cache_after];
      replied ltac:(left; reflexivity) ltac:(idtac)].
  destruct (present (message req)) as [message|];
    [|unfold respond; cbn [reply cache_after];
      replied ltac:(right; left; reflexivity) ltac:(idtac)].
  destruct (JsMap.get cache _);
    [unfold respond; cbn [reply cache_after];
     replied ltac:(do 2 right; left; reflexivity) ltac:(left; reflexivity)|].
  destruct (credential_missing key); cbn [orb].
  { rewrite fresh_error_not_aborted. cbn [response Error reply cache_after].
    rejected. }
  destruct remote as [c|m|e].
  - unfold deliver, respond. destruct (isSafeResponse c); cbn [reply cache_after].
    + replied ltac:(do 2 right; left; reflexivity) ltac:(right; left; reflexivity).
    + replied ltac:(do 2 right; left; reflexivity)
              ltac:(do 2 right; left; reflexivity).
  - rewrite type_error_not_aborted. cbn [response TypeError reply cache_after].
    rejected.
  - destruct (rethrows_cases e) as [(Hs & ->) | (Hs & m & ->)]; rewrite Hs.
    + rewrite orb_false_r. unfold aborted.
      destruct (Js.eqb _ _ || _); cbn [negb].
      * unfold respond; cbn [reply cache_after].
        replied ltac:(do 2 right; left; reflexivity)
                ltac:(do 3 right; left; reflexivity).
      * apply orb_false_elim in Hs as [Hs _]. apply orb_false_elim in Hs as [Hs _].
        unfold has_status in Hs. rewrite Hs. cbn [reply cache_after]. rejected.
    + rewrite orb_true_r. rewrite fresh_error_not_aborted.
      cbn [response Error reply cache_after]. rejected.
Qed.

(** *** What is posted to the completion service *)

Lemma chatjs_posted (cache : JsMap.t) (key : option jsstring)
    (req : Request) (remote : remote_outcome) :
  posted (ChatJs.handler cache key req remote)
  = if Js.eqb (method req) (Js.lit "POST") then
      match present (message req) with
      | None => None
      | Some message =>
          match JsMap.get cache (cacheKey message (messageHistory req)) with
          | Some _ => None
          | None => if credential_missing key then None
                    else Some (messages_for message (messageHistory req))
          end
      end
    else None.
Proof.
  unfold ChatJs.handler.
  destruct (Js.eqb (method req) (Js.lit "POST")); [|reflexivity]. cbn [negb].
  destruct (present (message req)) as [message|]; [|reflexivity].
  destruct (JsMap.get cache _); [reflexivity|].
  destruct (credential_missing key).
  { rewrite fresh_error_not_aborted. reflexivity. }
  destruct remote as [c|m|e].
  - unfold deliver. destruct (isSafeResponse c); reflexivity.
  - rewrite type_error_not_aborted. reflexivity.
  - destruct (Js.eqb _ _ || _); [reflexivity|].
    destruct (match response _ with Some _ => _ | None => _ end); reflexivity.
Qed.

Lemma part000_posted (cache : JsMap.t) (key : option jsstring)
    (req : Request) (remote : remote_outcome) :
  posted (Part000.handler cache key req remote)
  = posted (ChatJs.handler cache key req remote).
Proof.
  rewrite chatjs_posted. unfold Part000.handler.
  destruct (Js.eqb (method req) (Js.lit "POST")); [|reflexivity]. cbn [negb].
  destruct (present (message req)) as [message|]; [|reflexivity].
  destruct (JsMap.get cache _); [reflexivity|].
  destruct (credential_missing key).
  { rewrite fresh_error_not_aborted. reflexivity. }
  destruct remote as [c|m|e].
  - unfold deliver. destruct (isSafeResponse c); reflexivity.
  - rewrite type_error_not_aborted. reflexivity.
  - destruct (Js.eqb _ _ || _); [reflexivity|].
    destruct (match response _ with Some _ => _ | None => _ end); reflexivity.
Qed.

Lemma slice_last_length {A} (n : nat) (l : list A) :
  length (slice_last n l) = Nat.min n (length l).
Proof. unfold slice_last. rewrite length_skipn. lia. Qed.

(** X12.  The handler of [chat.js] posts to the completion service exactly
    when the method is POST, the message is there, the cache has no entry
    for its key and the credential is set; [part_000] posts on the same
    requests and the same messages.  What is posted begins with the system
    prompt, ends with the message of the request under the role ['user'],
    and has between them the last five turns of the history at most, in
    their order, each under the role ['user'] or ['assistant']. *)
Theorem request_to_the_service (cache : JsMap.t) (key : option jsstring)
    (req : Request) (remote : remote_outcome) :
  (forall ms,
     posted (ChatJs.handler cache key req remote) = Some ms
     <-> exists message,
           Js.eqb (method req) (Js.lit "POST") = true
           /\ present (Route.message req) = Some message
           /\ JsMap.get cache (cacheKey message (messageHistory req)) = None
           /\ credential_missing key = false
           /\ ms = messages_for message (messageHistory req))
  /\ posted (Part000.handler cache key req remote)
     = posted (ChatJs.handler cache key req remote)
  /\ forall message history,
       let turns := match history with Some h => h | None => [] end in
       exists between,
         messages_for message history
         = {| role := Js.lit "system"; content := CHILD_SAFE_SYSTEM_PROMPT |}
           :: between ++ [{| role := Js.lit "user"; content := message |}]
         /\ length between = Nat.min 5 (length turns)
         /\ map content between = map text (slice_last 5 turns)
         /\ Forall (fun m => role m = Js.lit "user" \/ role m = Js.lit "assistant")
                   between.
Proof.
  split; [|split; [apply part000_posted|]].
  - intros ms. rewrite chatjs_posted. split.
    + destruct (Js.eqb (method req) (Js.lit "POST")); [|discriminate].
      destruct (present (message req)) as [message|]; [|discriminate].
      destruct (JsMap.get cache _) eqn:Eg; [discriminate|].
      destruct (credential_missing key); [discriminate|].
      intros [= <-]. exists message. repeat split. exact Eg.
    + intros (message & -> & -> & -> & -> & ->). reflexivity.
  - intros message history turns.
    exists (map (fun msg =>
                   {| role := if Js.eqb (sender msg) (Js.lit "user")
                              then Js.lit "user" else Js.lit "assistant";
                      content := text msg |})
                (slice_last 5 turns)).
    split; [|split; [|split]].
    + unfold messages_for, turns. destruct history; reflexivity.
    + rewrite length_map. apply slice_last_length.
    + rewrite map_map. reflexivity.
    + apply Forall_forall. intros m Hin. apply in_map_iff in Hin.
      destruct Hin as (msg & <- & _). cbn [role].
      destruct (Js.eqb _ _); [left|right]; reflexivity.
Qed.

(** *** The size of the cache of the route *)

Lemma porn_is_rejected : isSafeResponse (Js.lit "porn") = false.
Proof. rewrite isSafeResponse_folded. vm_compute. reflexivity. Qed.

Lemma rejected_post_step (cache : JsMap.t) (n : nat) :
  JsMap.get cache (repeat 120%N (S n) ++ Js.lit ":0") = None ->
  cache_after (ChatJs.handler cache (Some (Js.lit "sk-1")) (rejected_post n)
                 (Resolves (Js.lit "porn")))
  = cache ++ [(repeat 120%N (S n) ++ Js.lit ":0", safeResponse)].
Proof.
  intros Hnew. unfold ChatJs.handler, rejected_post.
  cbn [method message messageHistory present Js.truthy repeat negb].
  change (Js.eqb (Js.lit "POST") (Js.lit "POST")) with true. cbn [negb].
  change (cacheKey (120%N :: repeat 120%N n) None)
    with (repeat 120%N (S n) ++ Js.lit ":0").
  rewrite Hnew.
  change (credential_missing (Some (Js.lit "sk-1"))) with false. cbv iota.
  unfold deliver. rewrite porn_is_rejected. unfold respond. cbn [cache_after].
  now apply JsMapFacts.set_absent.
Qed.

Lemma rejected_posts_keys (n : nat) :
  JsMap.size (after_rejected_posts n) = n
  /\ forall e, In e (after_rejected_posts n) -> length (fst e) <= n + 2.
Proof.
  induction n as [|n [IHsize IHkeys]]; [split; [reflexivity|intros e []]|].
  assert (Hnew : JsMap.get (after_rejected_posts n)
                   (repeat 120%N (S n) ++ Js.lit ":0") = None).
  { apply JsMapFacts.get_none_keys. intros Hin.
    apply in_map_iff in Hin. destruct Hin as (e & He & Hin).
    apply IHkeys in Hin. rewrite He, length_app, repeat_length in Hin.
    change (length (Js.lit ":0")) with 2 in Hin. lia. }
  cbn [after_rejected_posts]. rewrite (rejected_post_step _ n Hnew). split.
  - unfold JsMap.size in *. rewrite length_app, IHsize. cbn [length]. lia.
  - intros e Hin. apply in_app_iff in Hin. destruct Hin as [Hin|[<-|[]]].
    + apply IHkeys in Hin. lia.
    + cbn [fst]. rewrite length_app, repeat_length.
      change (length (Js.lit ":0")) with 2. lia.
Qed.

Lemma rejected_posts_reachable (n : nat) : route_reachable (after_rejected_posts n).
Proof.
  induction n as [|n IH]; [apply route_init|].
  cbn [after_rejected_posts]. now apply route_call.
Qed.

(** X13.  The cache of the route has no bound: it can reach any size.  Only
    the branch that stores a reply which passed the filter evicts the
    oldest entry; the branch that stores the redirect sentence for a
    rejected reply does not, so every rejected reply to a new message adds
    an entry.  A reply that passed the filter never takes the cache beyond
    100 entries or beyond the size it had. *)
Theorem route_cache_is_unbounded :
  (forall n, exists cache, route_reachable cache /\ JsMap.size cache = n)
  /\ (forall cache key req remote text,
        reply (ChatJs.handler cache key req remote)
        = Return {| status := 200; json := Chat text (Js.lit "api") |} ->
        JsMap.size (cache_after (ChatJs.handler cache key req remote))
        <= Nat.max 100 (JsMap.size cache))
  /\ (forall cache key req remote,
        reply (ChatJs.handler cache key req remote)
        = Return {| status := 200; json := Chat safeResponse (Js.lit "fallback") |} ->
        JsMap.size (cache_after (ChatJs.handler cache key req remote))
        = S (JsMap.size cache)).
Proof.
  split; [|split].
  - intros n. exists (after_rejected_posts n).
    split; [apply rejected_posts_reachable|apply rejected_posts_keys].
  - intros cache key req remote text. unfold ChatJs.handler.
    destruct (negb _); [discriminate|].
    destruct (present _) as [message|]; [|discriminate].
    destruct (JsMap.get cache _) eqn:Eg.
    { unfold respond; cbn [reply cache_after]. lia. }
    destruct (credential_missing key).
    { rewrite fresh_error_not_aborted. discriminate. }
    destruct remote as [c|m|e].
    + unfold deliver, respond. destruct (isSafeResponse c); cbn [reply cache_after].
      * intros _. pose proof (JsMapFacts.size_set cache
                                (cacheKey message (messageHistory req)) c) as Hs.
        rewrite Eg in Hs.
        destruct (Nat.ltb_spec 100 (JsMap.size (JsMap.set cache
                    (cacheKey message (messageHistory req)) c))) as [Hgt|Hle]; [|lia].
        destruct (JsMap.set cache (cacheKey message (messageHistory req)) c)
          as [|[k0 v0] r] eqn:E; [unfold JsMap.size in *; simpl in *; lia|].
        cbn [JsMap.first_key JsMap.delete fst]. rewrite eqb_refl.
        unfold JsMap.size in *. cbn [length] in *. lia.
      * intros [= _ Hsrc]; apply eqb_eq in Hsrc; discriminate Hsrc.
    + rewrite type_error_not_aborted. discriminate.
    + destruct (Js.eqb _ _ || _).
      { unfold respond; cbn [reply]. intros [= _ Hsrc];
          apply eqb_eq in Hsrc; discriminate Hsrc. }
      destruct (match response _ with Some _ => _ | None => _ end).
      { unfold respond; cbn [reply]. intros [= _ Hsrc];
          apply eqb_eq in Hsrc; discriminate Hsrc. }
      discriminate.
  - intros cache key req remote. unfold ChatJs.handler.
    destruct (negb _); [discriminate|].
    destruct (present _) as [message|]; [|discriminate].
    destruct (JsMap.get cache _) eqn:Eg.
    { unfold respond; cbn [reply cache_after]. intros [= _ Hsrc];
        apply eqb_eq in Hsrc; discriminate Hsrc. }
    destruct (credential_missing key).
    { rewrite fresh_error_not_aborted. discriminate. }
    destruct remote as [c|m|e].
    + unfold deliver, respond. destruct (isSafeResponse c); cbn [reply cache_after].
      * intros [= _ Hsrc]; apply eqb_eq in Hsrc; discriminate Hsrc.
      * intros _. rewrite JsMapFacts.size_set, Eg. reflexivity.
    + rewrite type_error_not_aborted. discriminate.
    + destruct (Js.eqb _ _ || _).
      { unfold respond; cbn [reply]. intros [= _ Hsrc];
          apply eqb_eq in Hsrc; discriminate Hsrc. }
      destruct (match response _ with Some _ => _ | None => _ end).
      { unfold respond; cbn [reply]. intros [= _ Hsrc];
          apply eqb_eq in Hsrc; discriminate Hsrc. }
      discriminate.
Qed.

(** *** What the filter rejects *)

Lemma anywhere_after (P : jsstring -> bool) (pre t : jsstring) :
  P t = true -> Js.anywhere P (pre ++ t) = true.
Proof.
  intros Ht. induction pre as [|c pre IH].
  - destruct t; simpl; rewrite Ht; reflexivity.
  - cbn [app]. rewrite ReFacts.anywhere_cons, IH. apply orb_true_r.
Qed.

(** An ASCII spelling of an ASCII word, in any mix of upper and lower
    case, is matched by the word under the [i] flag. *)
Lemma spelled_strip (word spelled post : jsstring) :
  forallb (fun c => (c <? 128)%N) word = true ->
  Forall (fun c => (c < 128)%N) spelled ->
  map ascii_upper spelled = map ascii_upper word ->
  Re.strip Re.same_letter word (spelled ++ post) = Some post.
Proof.
  revert spelled. induction word as [|p word IH]; intros spelled Hw Hs Hup.
  - destruct spelled; [reflexivity|discriminate].
  - destruct spelled as [|c spelled]; [discriminate|].
    cbn [forallb] in Hw. apply andb_true_iff in Hw as [Hp Hw].
    inversion Hs as [|? ? Hc Hs']; subst.
    cbn [map] in Hup. injection Hup as Hpc Hup.
    cbn [app Re.strip]. rewrite same_letter_folded. unfold Re.folded.
    rewrite Hp. apply N.ltb_lt in Hc. rewrite Hc. rewrite Hpc, N.eqb_refl.
    now apply IH.
Qed.

Local Ltac rejected_by listed word spelled post :=
  apply (blocked_is_unsafe _ {| Re.anchored := false; Re.body := Re.Chars word |});
  [ listed
  | unfold Re.test, Re.test_by; cbn [Re.anchored Re.body];
    apply anywhere_after; rewrite ReFacts.chars_here;
    rewrite (spelled_strip word spelled post);
    [reflexivity|vm_compute; reflexivity|assumption|assumption] ].

(** X14.  [isSafeResponse] looks for its words anywhere in the text, inside
    longer words too, in any mix of upper and lower case: a text that holds
    a spelling of porn, explicit, adult content, not appropriate for
    children, kill yourself, self-harm or suicide is rejected whatever
    stands before and after it, and so is a text that holds a spelling of
    sex, unless what follows it begins with one of the three excepted
    continuations. *)
Theorem blocked_word_anywhere_is_rejected (pre spelled post word : jsstring) :
  Forall (fun c => (c < 128)%N) spelled ->
  map ascii_upper spelled = map ascii_upper word ->
  (In word [Js.lit "porn"; Js.lit "explicit"; Js.lit "adult content";
            Js.lit "not appropriate for children"; Js.lit "kill yourself";
            Js.lit "self-harm"; Js.lit "suicide"] ->
   isSafeResponse (pre ++ spelled ++ post) = false)
  /\ (word = Js.lit "sex" ->
      Re.matches_here Re.same_letter
        (Re.one_of [Js.lit "ual violence"; Js.lit "ual abuse";
                    Js.lit "ual harassment"]) post = false ->
      isSafeResponse (pre ++ spelled ++ post) = false).
Proof.
  intros Hascii Hup. split.
  - intros Hword. cbn [In] in Hword.
    destruct Hword as [<-|[<-|[<-|[<-|[<-|[<-|[<-|[]]]]]]]].
    + rejected_by ltac:(do 1 right; left; reflexivity)
        (Js.lit "porn") spelled post.
    + rejected_by ltac:(do 2 right; left; reflexivity)
        (Js.lit "explicit") spelled post.
    + rejected_by ltac:(do 3 right; left; reflexivity)
        (Js.lit "adult content") spelled post.
    + rejected_by ltac:(do 5 right; left; reflexivity)
        (Js.lit "not appropriate for children") spelled post.
    + rejected_by ltac:(do 6 right; left; reflexivity)
        (Js.lit "kill yourself") spelled post.
    + rejected_by ltac:(do 7 right; left; reflexivity)
        (Js.lit "self-harm") spelled post.
    + rejected_by ltac:(do 8 right; left; reflexivity)
        (Js.lit "suicide") spelled post.
  - intros -> Hfollow.
    apply (blocked_is_unsafe _
             {| Re.anchored := false;
                Re.body := Re.Then (Re.Chars (Js.lit "sex"))
                             (Re.NotFollowedBy
                                (Re.one_of [Js.lit "ual violence"; Js.lit "ual abuse";
                                            Js.lit "ual harassment"])) |});
      [left; reflexivity|].
    unfold Re.test, Re.test_by; cbn [Re.anchored Re.body].
    apply anywhere_after. rewrite ReFacts.guarded_here.
    rewrite (spelled_strip (Js.lit "sex") spelled post);
      [|vm_compute; reflexivity|assumption|assumption].
    rewrite Hfollow. reflexivity.
Qed.

(** *** The check of the credential *)

(** X15.  [checkApiKey] and the test of the credential inside the handler
    agree: both count the credential as missing exactly when the variable
    is unset, empty or made of white space only. *)
Theorem checkApiKey_agrees_with_the_handler (key : option jsstring) :
  fst (ChatJsMore.checkApiKey key) = negb (credential_missing key)
  /\ (credential_missing key = true
      <-> key = None \/ exists k, key = Some k /\ forallb Js.is_white k = true).
Proof.
  split.
  - unfold ChatJsMore.checkApiKey, credential_missing.
    destruct key as [k|]; [|reflexivity].
    destruct (Js.truthy k); cbn [negb orb]; [|reflexivity].
    destruct (Js.eqb (Js.trim k) []); reflexivity.
  - unfold credential_missing. destruct key as [k|].
    + split.
      * intros Hm. right. exists k. split; [reflexivity|].
        apply orb_true_iff in Hm as [Hm|Hm].
        -- destruct k; [reflexivity|discriminate].
        -- now apply trim_empty.
      * intros [Hn|(k' & [= <-] & Hw)]; [discriminate|].
        apply orb_true_iff. right. now apply trim_empty.
    + split; [intros _; left; reflexivity|reflexivity].
Qed.

(** *** The keys of the cache of the route *)

Lemma digits_of_uint (d : Decimal.uint) :
  Forall (fun c => (48 <= c <= 57)%N)
         (Js.lit (DecimalString.NilEmpty.string_of_uint d)).
Proof.
  induction d;
    [apply Forall_nil|apply Forall_cons; [split; discriminate|exact IHd]..].
Qed.

Lemma digits_inj (d1 d2 : Decimal.uint) :
  Js.lit (DecimalString.NilEmpty.string_of_uint d1)
  = Js.lit (DecimalString.NilEmpty.string_of_uint d2) -> d1 = d2.
Proof.
  revert d2. induction d1 as [|d1 IH|d1 IH|d1 IH|d1 IH|d1 IH|d1 IH|d1 IH|d1 IH|d1 IH|d1 IH];
    intros [|d2|d2|d2|d2|d2|d2|d2|d2|d2|d2] Heq;
    try reflexivity; try discriminate Heq;
    f_equal; apply IH; injection Heq as Heq; exact Heq.
Qed.

Lemma of_nat_inj (n1 n2 : nat) : Js.of_nat n1 = Js.of_nat n2 -> n1 = n2.
Proof.
  intros Heq. apply DecimalNat.Unsigned.to_uint_inj. now apply digits_inj.
Qed.

Lemma of_nat_no_colon (n : nat) : ~ In 58%N (Js.of_nat n).
Proof.
  intros Hin. pose proof (digits_of_uint (Nat.to_uint n)) as Hd.
  rewrite Forall_forall in Hd. apply Hd in Hin. lia.
Qed.

(** Two texts that end in a colon and a colon-free tail are equal only if
    they agree before the colon and after it. *)
Lemma split_at_last_colon (m1 m2 d1 d2 : jsstring) :
  ~ In 58%N d1 -> ~ In 58%N d2 ->
  m1 ++ 58%N :: d1 = m2 ++ 58%N :: d2 -> m1 = m2 /\ d1 = d2.
Proof.
  intros H1 H2. revert m2. induction m1 as [|c m1 IH]; intros [|c' m2] Heq.
  - injection Heq as ->. split; reflexivity.
  - injection Heq as <- ->. exfalso. apply H1, in_or_app. right. left. reflexivity.
  - injection Heq as -> <-. exfalso. apply H2, in_or_app. right. left. reflexivity.
  - injection Heq as -> Heq. destruct (IH m2 Heq) as [-> ->]. split; reflexivity.
Qed.

Lemma cacheKey_inj (message1 message2 : jsstring)
    (history1 history2 : option (list Turn)) :
  cacheKey message1 history1 = cacheKey message2 history2 ->
  message1 = message2
  /\ match history1 with Some h => length h | None => 0 end
     = match history2 with Some h => length h | None => 0 end.
Proof.
  unfold cacheKey. change (Js.lit ":") with [58%N]. cbn [app]. intros Heq.
  apply split_at_last_colon in Heq; try apply of_nat_no_colon.
  destruct Heq as [-> Hn]. split; [reflexivity|now apply of_nat_inj].
Qed.

(** X18.  The key of the cache of the route tells the message and the
    length of the history apart from every other message and length: two
    requests have the same key only if they have the same message and
    histories of the same length.  So an entry that a call of the handler
    adds is found only by requests with the message of that call and a
    history as long as its history. *)
Theorem route_entry_is_for_its_request :
  (forall message1 message2 history1 history2,
     cacheKey message1 history1 = cacheKey message2 history2
     <-> message1 = message2
         /\ match history1 with Some h => length h | None => 0 end
            = match history2 with Some h => length h | None => 0 end)
  /\ forall cache key req remote message history text,
       JsMap.get cache (cacheKey message history) = None ->
       JsMap.get (cache_after (ChatJs.handler cache key req remote))
                 (cacheKey message history) = Some text ->
       Route.message req = Some message
       /\ match messageHistory req with Some h => length h | None => 0 end
          = match history with Some h => length h | None => 0 end.
Proof.
  split.
  - intros message1 message2 history1 history2. split; [apply cacheKey_inj|].
    intros [-> Hlen]. unfold cacheKey. now rewrite Hlen.
  - intros cache key req remote message history text Hnone Hsome.
    assert (Hpresent : forall m, present (Route.message req) = Some m ->
                                 Route.message req = Some m).
    { intros m. unfold present. destruct (Route.message req) as [m'|]; [|discriminate].
      destruct (Js.truthy m'); [|discriminate]. intros [= ->]. reflexivity. }
    assert (Hkey : forall k v,
              In (cacheKey message history, text) (JsMap.set cache k v) ->
              k = cacheKey message history).
    { intros k v Hin. apply JsMapFacts.in_set in Hin.
      apply JsMapFacts.get_none_keys in Hnone.
      destruct Hin as [Hin|[_ [Hk|Hk]]].
      - exfalso. apply Hnone. apply in_map_iff. eexists. split; [|exact Hin].
        reflexivity.
      - symmetry. exact Hk.
      - exfalso. exact (Hnone Hk). }
    apply get_some_in in Hsome.
    destruct (chatjs_cache_step cache key req remote)
      as [Hsame | (m & v & source & Hm & _ & _ & _ & [Hstep | Hstep])];
      rewrite ?Hsame, ?Hstep in Hsome.
    + exfalso. apply JsMapFacts.get_none_keys in Hnone. apply Hnone.
      apply in_map_iff. eexists. split; [|exact Hsome]. reflexivity.
    + apply JsMapFacts.in_set_bounded, Hkey, cacheKey_inj in Hsome.
      destruct Hsome as [-> Hlen]. split; [now apply Hpresent|exact Hlen].
    + apply Hkey, cacheKey_inj in Hsome.
      destruct Hsome as [-> Hlen]. split; [now apply Hpresent|exact Hlen].
Qed.

End RouteMore.

(** ** The canned replies of the chat service *)

Section CannedReplies.
Context `{CaseMapping}.
Import ChatService.

Lemma find_head {A} (P : A -> bool) (x : A) (l : list A) :
  P x = true -> find P (x :: l) = Some x.
Proof. intros Hx. cbn [find]. now rewrite Hx. Qed.

(** X16.  The greeting pattern is anchored at the start of the input and
    not at its end: an input that is not concerning and has no entry of
    its own in the cache, and that begins with a spelling of hallo, hi, hey,
    guten tag, servus or moin, is answered with the greeting, whatever
    follows these letters, in the same word or after it.  No request is
    made and the cache is left as it is. *)
Theorem greeting_prefix_is_answered_locally (cache : JsMap.t)
    (word spelled rest : jsstring) (history : list Turn)
    (net : fetch_outcome) (random : Q) :
  In word [Js.lit "hallo"; Js.lit "hi"; Js.lit "hey"; Js.lit "guten tag";
           Js.lit "servus"; Js.lit "moin"] ->
  Forall (fun c => (c < 128)%N) spelled ->
  map ascii_upper spelled = map ascii_upper word ->
  containsConcerningContent (spelled ++ rest) || hasConcerningPattern history
  = false ->
  JsMap.has cache (toLowerCase (spelled ++ rest)) = false ->
  generateBotResponse cache (spelled ++ rest) history net random
  = {| result := Return (VString (Js.lit "Hallo! Schön, dass du da bist. Wie geht es dir heute? Du kannst mir alles erzählen, was dich beschäftigt."));
       cache_after := cache;
       effects := [ConsoleLog (Js.lit "Using cached response")] |}.
Proof.
  intros Hword Hascii Hup Hcalm Hnew.
  apply hit_outcome; [exact Hcalm|].
  unfold getCachedResponse. rewrite Hnew. unfold COMMON_PATTERNS.
  rewrite find_head; [vm_compute; reflexivity|].
  unfold Re.test, Re.test_by. cbn [pattern Re.anchored Re.body].
  rewrite ReFacts.one_of_here. apply existsb_exists. exists word.
  split; [exact Hword|].
  rewrite (spelled_strip word spelled rest); [reflexivity| |exact Hascii|exact Hup].
  cbn [In] in Hword.
  destruct Hword as [<-|[<-|[<-|[<-|[<-|[<-|[]]]]]]]; vm_compute; reflexivity.
Qed.

End CannedReplies.

(** ** From the completion service to the child *)

Section EndToEnd.
Context `{CaseMapping}.
Import ChatService.

Lemma canned_responses_pass (item : CommonPattern) :
  In item COMMON_PATTERNS -> Route.isSafeResponse (response item) = true.
Proof.
  unfold COMMON_PATTERNS. cbn [In].
  intros [<-|[<-|[<-|[<-|[]]]]]; rewrite isSafeResponse_folded;
    vm_compute; reflexivity.
Qed.

Lemma failure_replies_pass (s : jsstring) :
  In s failure_replies -> Route.isSafeResponse s = true.
Proof.
  unfold failure_replies, fallbackResponses. cbn [app In].
  intros [<-|[<-|[<-|[<-|[<-|[<-|[<-|[<-|[<-|[<-|[]]]]]]]]]]];
    rewrite isSafeResponse_folded; vm_compute; reflexivity.
Qed.

Lemma safety_message_is_rejected :
  Route.isSafeResponse generateSafetyResourcesMessage = false.
Proof. rewrite isSafeResponse_folded. vm_compute. reflexivity. Qed.

Lemma lookup_passes (client : JsMap.t) (input v : jsstring) :
  (forall e, In e client -> Route.isSafeResponse (snd e) = true) ->
  getCachedResponse client input = Some v ->
  Route.isSafeResponse v = true.
Proof.
  intros Hclient. unfold getCachedResponse.
  destruct (JsMap.has client (toLowerCase input)).
  - intros Hg. apply get_some_in in Hg. exact (Hclient _ Hg).
  - destruct (find _ COMMON_PATTERNS) as [item|] eqn:Ef; [|discriminate].
    intros [= <-]. apply find_some in Ef as [Hin _].
    now apply canned_responses_pass.
Qed.

(** X17.  Let the route of [chat.js] be in a state it can reach, and let the
    cache of the client hold only texts that pass [isSafeResponse].  When
    the client calls the route with the request it builds, and gets the
    reply of the route, or no reply in time, or a failure, or a response
    that is not [ok], then what [generateBotResponse] returns is a text
    that passes [isSafeResponse] or is the safety message of the client,
    and the cache of the client holds only texts that pass, as before.
    The safety message itself does not pass the filter (it names the
    Hilfetelefon Sexueller Missbrauch); it is built by the client and never
    goes through the filter. *)
Theorem child_reads_filtered_text (client route : JsMap.t)
    (key : option jsstring) (userInput : jsstring) (history : list Turn)
    (remote : Route.remote_outcome) (net : fetch_outcome) (random : Q) :
  route_reachable route ->
  (forall e, In e client -> Route.isSafeResponse (snd e) = true) ->
  (0 <= random)%Q -> (random < 1)%Q ->
  (exists r,
     Route.reply (ChatJs.handler route key (posted_request userInput history)
                    remote) = Return r
     /\ net = delivered r)
  \/ net = TimerWins
  \/ (exists message, net = FetchRejects message)
  \/ (exists status p, ok status = false /\ net = FetchResolves status p) ->
  let call := generateBotResponse client userInput history net random in
  (exists s, result call = Return (VString s)
             /\ (Route.isSafeResponse s = true
                 \/ s = generateSafetyResourcesMessage))
  /\ (forall e, In e (cache_after call) -> Route.isSafeResponse (snd e) = true)
  /\ Route.isSafeResponse generateSafetyResourcesMessage = false.
Proof.
  intros Hroute Hclient H0 H1 Hnet call.
  assert (Htext : forall t, attempt net = Return t ->
                            Route.isSafeResponse t = true).
  { intros t Ht. apply attempt_returns in Ht as (status & e & Hn & Hok & _).
    destruct Hnet as [(r & Hr & Hd)|[Ht|[(m & Hm)|(status' & p & Hno & Hp)]]];
      [|congruence|congruence|].
    - rewrite Hn in Hd. unfold delivered in Hd. destruct r as [n [text source|err]];
        cbn [Route.status Route.json] in Hd; [|discriminate Hd].
      injection Hd as _ Ht. subst t.
      exact (proj2 (chatjs_chat_reply route key _ remote text source n Hroute Hr)).
    - rewrite Hn in Hp. injection Hp as Hs _. subst status'. congruence. }
  split; [|split; [|exact safety_message_is_rejected]];
    subst call; unfold generateBotResponse;
    (destruct (_ || _);
      [cbn [result cache_after]|
       destruct (truthy_reply (getCachedResponse client userInput)) as [v|] eqn:Ehit;
         [cbn [result cache_after]|
          destruct (attempt net) as [t|m] eqn:Ea; cbn [result cache_after]]]).
  - eexists. split; [reflexivity|]. right. reflexivity.
  - exists v. split; [reflexivity|]. left.
    unfold truthy_reply in Ehit.
    destruct (getCachedResponse client userInput) as [v'|] eqn:Eg; [|discriminate].
    destruct (Js.truthy v'); [|discriminate]. injection Ehit as ->.
    exact (lookup_passes client userInput v Hclient Eg).
  - exists t. split; [reflexivity|]. left. now apply Htext.
  - destruct (on_error_literal m random H0 H1) as (s & -> & Hin).
    exists s. split; [reflexivity|]. left. now apply failure_replies_pass.
  - exact Hclient.
  - exact Hclient.
  - intros e Hin. apply cacheResponse_values in Hin as [Hin| ->];
      [now apply Hclient|now apply Htext].
  - exact Hclient.
Qed.

End EndToEnd.

(* ================================================================== *)
(** * The properties at the sample inputs *)

Import ChatService Route Latin1Facts Sample.

(** The greeting pattern answers without a request. *)
Example greeting_is_canned :
  generateBotResponse [] (Js.lit "hallo, wie geht es dir") [] TimerWins 0 =
  {| result := Return (VString (Js.lit "Hallo! Schön, dass du da bist. Wie geht es dir heute? Du kannst mir alles erzählen, was dich beschäftigt."));
     ChatService.cache_after := [];
     effects := [ConsoleLog (Js.lit "Using cached response")] |}.
Proof. vm_compute. reflexivity. Qed.

Lemma concern_keyword_witness :
  generateBotResponse
    [(toLowerCase (Js.lit "Hallo, mein TRAINER ist komisch"), Js.lit "alles gut")]
    (Js.lit "Hallo, mein TRAINER ist komisch") [] sunny (1#2) =
  {| result := Return (VString generateSafetyResourcesMessage);
     ChatService.cache_after :=
       [(toLowerCase (Js.lit "Hallo, mein TRAINER ist komisch"), Js.lit "alles gut")];
     effects := [ConsoleLog (Js.lit "Concerning content detected in conversation")] |}.
Proof.
  apply (concern_keyword_yields_safety_message
           (Js.lit "Hallo, mein TRAINER ist komisch") (Js.lit "trainer")).
  - vm_compute. tauto.
  - vm_compute. reflexivity.
Defined.

Lemma returns_string_witness :
  exists reply,
    result (generateBotResponse [] weather []
              (FetchResolves 503 (NotJson (Js.lit "Unexpected token <"))) (3#4))
    = Return (VString reply)
    /\ (containsConcerningContent weather || hasConcerningPattern [] = true ->
        reply = generateSafetyResourcesMessage)
    /\ (containsConcerningContent weather || hasConcerningPattern [] = false ->
        forall cached,
          truthy_reply (getCachedResponse [] weather) = Some cached ->
          reply = cached)
    /\ (containsConcerningContent weather || hasConcerningPattern [] = false ->
        truthy_reply (getCachedResponse [] weather) = None ->
        In reply failure_replies).
Proof.
  apply (generateBotResponse_returns_string [] weather []
           (FetchResolves 503 (NotJson (Js.lit "Unexpected token <"))) (3#4)).
  - vm_compute. discriminate.
  - vm_compute. reflexivity.
Defined.

(** At the sample call the two conditions of the failure path hold, and the
    reply is the third generic sentence. *)
Example returns_string_on_failure :
  containsConcerningContent weather || hasConcerningPattern [] = false
  /\ truthy_reply (getCachedResponse [] weather) = None
  /\ result (generateBotResponse [] weather []
               (FetchResolves 503 (NotJson (Js.lit "Unexpected token <"))) (3#4))
     = Return (VString (Js.lit "Ich habe gerade technische Schwierigkeiten. Kannst du mir helfen und deine Nachricht noch einmal senden?")).
Proof. repeat split; vm_compute; reflexivity. Qed.

Lemma last_three_witness :
  (hasConcerningPattern conversation = true <->
   2 <= length (filter (fun msg => containsConcerningContent (text msg))
                  [user (Js.lit "Magst du Pizza?"); user (Js.lit "Und Nudeln?");
                   user (Js.lit "Ich auch")]))
  /\ ((forall msg,
         In msg [user (Js.lit "Magst du Pizza?"); user (Js.lit "Und Nudeln?");
                 user (Js.lit "Ich auch")] ->
         containsConcerningContent (text msg) = false) ->
      hasConcerningPattern conversation = false).
Proof.
  apply (hasConcerningPattern_last_three conversation
           [user (Js.lit "Ich habe Angst"); user (Js.lit "Mein Trainer droht mir")]).
  - vm_compute. reflexivity.
  - left. reflexivity.
Defined.

(** The two earlier turns are concerning, the pattern check is false. *)
Example earlier_turns_do_not_count :
  containsConcerningContent (Js.lit "Ich habe Angst") = true
  /\ containsConcerningContent (Js.lit "Mein Trainer droht mir") = true
  /\ hasConcerningPattern conversation = false.
Proof. vm_compute. repeat split. Qed.

Lemma cache_admission_witness :
  (forall key, In key (JsMap.keys after_one_call) ->
     exists input, key = toLowerCase input /\ 4 <= length input <= 99
                   /\ containsConcerningContent input = false)
  /\ (forall input response,
        length input <= 3 \/ 100 <= length input
        \/ containsConcerningContent input = true ->
        cacheResponse after_one_call input response = after_one_call).
Proof.
  apply (cache_admission after_one_call).
  apply reachable_call. apply reachable_init.
Defined.

(** Against C4 as worded: an input of four characters is stored, and its
    length is not strictly between 4 and 99. *)
Lemma four_characters_are_admitted :
  length (Js.lit "Wer?") = 4
  /\ cacheResponse [] (Js.lit "Wer?") (Js.lit "Ich.")
     = [(toLowerCase (Js.lit "Wer?"), Js.lit "Ich.")]
  /\ ~ (4 < length (Js.lit "Wer?") < 99).
Proof.
  split; [reflexivity|]. split; [vm_compute; reflexivity|].
  change (length (Js.lit "Wer?")) with 4. lia.
Qed.

Lemma after_calls_reachable (inputs : list jsstring) (cache : JsMap.t) :
  reachable cache -> reachable (after_calls inputs cache).
Proof.
  revert cache. induction inputs as [|input inputs IH]; intros cache Hr;
    [exact Hr|].
  apply IH. apply reachable_call. exact Hr.
Qed.

Lemma fifo_eviction_witness :
  cacheResponse full_cache (question 100) (Js.lit "Hundert")
  = tl full_cache ++ [(toLowerCase (question 100), Js.lit "Hundert")]
  /\ JsMap.size (cacheResponse full_cache (question 100) (Js.lit "Hundert")) = 100
  /\ forall input' response',
       JsMap.size (cacheResponse full_cache input' response') <= 100.
Proof.
  apply (cache_bound_and_fifo_eviction full_cache (question 100) (Js.lit "Hundert")
           (toLowerCase (question 0), Js.lit "Morgen scheint die Sonne.")
           (tl full_cache)).
  - apply after_calls_reachable. apply reachable_init.
  - vm_compute. reflexivity.
  - vm_compute. reflexivity.
  - vm_compute. lia.
  - vm_compute. reflexivity.
  - apply JsMapFacts.get_none_keys. vm_compute. reflexivity.
Defined.

Lemma second_call_witness :
  result (generateBotResponse after_one_call weather [] TimerWins (1#3))
  = result (generateBotResponse [] weather [] sunny 0)
  /\ (forall m h,
        ~ In (Fetch m h)
             (effects (generateBotResponse after_one_call weather [] TimerWins (1#3))))
  /\ ChatService.cache_after
       (generateBotResponse after_one_call weather [] TimerWins (1#3))
     = after_one_call.
Proof.
  apply (second_call_served_from_cache [] weather [] sunny TimerWins 0 (1#3)).
  - apply reachable_init.
  - vm_compute. reflexivity.
Defined.

(** Against C8 as worded: an empty response is answered with the first
    generic sentence when [Math.random()] is 0 and with the third when it
    is 1/2, two sentences for one kind of failure. *)
Lemma empty_response_two_sentences :
  empty_call 0
  = Return (VString (Js.lit "Entschuldige, ich habe gerade ein Problem. Kannst du das bitte noch einmal sagen?"))
  /\ empty_call (1#2)
     = Return (VString (Js.lit "Es tut mir leid, aber ich kann gerade nicht richtig antworten. Lass uns in ein paar Minuten noch einmal versuchen zu sprechen."))
  /\ empty_call 0 <> empty_call (1#2).
Proof.
  split; [vm_compute; reflexivity|]. split; [vm_compute; reflexivity|].
  vm_compute. discriminate.
Qed.

Lemma failure_witness :
  (exists s, empty_call 0 = Return (VString s) /\ In s failure_replies)
  /\ (empty_call 0 = null_call
      \/ exists s s', empty_call 0 = Return (VString s)
                      /\ null_call = Return (VString s')
                      /\ In s fallbackResponses /\ In s' fallbackResponses)
  /\ (empty_reply = TimerWins -> empty_call 0 = Return (VString timeout_reply))
  /\ (Js.lit "Empty response received" = Js.lit "Empty response received" ->
      exists s, empty_call 0 = Return (VString s) /\ In s fallbackResponses)
  /\ ChatService.cache_after (generateBotResponse [] weather [] empty_reply 0) = [].
Proof.
  apply (failure_is_answered_by_a_literal [] after_one_call weather (question 7)
           (Js.lit "Empty response received") [] [bot (Js.lit "Was ist los?")]
           empty_reply null_reply 0 (1#2)).
  - vm_compute. discriminate.
  - vm_compute. reflexivity.
  - vm_compute. discriminate.
  - vm_compute. reflexivity.
  - vm_compute. reflexivity.
  - vm_compute. reflexivity.
  - vm_compute. reflexivity.
  - vm_compute. reflexivity.
  - vm_compute. reflexivity.
  - vm_compute. reflexivity.
Defined.

(** Status 500 is answered with the server sentence even when the body
    names the API key. *)
Example server_error_body_is_dropped :
  result (generateBotResponse [] weather []
            (FetchResolves 500
               (Json (JsonObject None (Some (Js.lit "API-Schlüssel fehlt"))))) 0)
  = Return (VString server_reply).
Proof. vm_compute. reflexivity. Qed.

Lemma output_filter_witness :
  (forall botResponse pattern,
     In pattern unsafePatterns -> Re.test pattern botResponse = true ->
     let o := ChatJs.handler [] credential disclosure (Resolves botResponse) in
     reply o = Return {| status := 200;
                         json := Chat safeResponse (Js.lit "fallback") |}
     /\ JsMap.get (Route.cache_after o)
          (cacheKey (Js.lit "Mein Trainer hat mich angefasst")
                    (messageHistory disclosure))
        = Some safeResponse
     /\ forall clientCache history random,
          containsConcerningContent (Js.lit "Mein Trainer hat mich angefasst")
          || hasConcerningPattern history = false ->
          truthy_reply
            (getCachedResponse clientCache
               (Js.lit "Mein Trainer hat mich angefasst")) = None ->
          let call :=
            generateBotResponse clientCache
              (Js.lit "Mein Trainer hat mich angefasst") history
              (delivered {| status := 200;
                            json := Chat safeResponse (Js.lit "fallback") |})
              random in
          result call = Return (VString safeResponse)
          /\ ChatService.cache_after call
             = cacheResponse clientCache
                 (Js.lit "Mein Trainer hat mich angefasst") safeResponse)
  /\ (forall pre post,
        isSafeResponse pre = true ->
        isSafeResponse (Js.lit "abuse" ++ post) = true ->
        let botResponse := pre ++ Js.lit "sexual abuse" ++ post in
        isSafeResponse botResponse = true
        /\ reply (ChatJs.handler [] credential disclosure (Resolves botResponse))
           = Return {| status := 200;
                       json := Chat botResponse (Js.lit "api") |}).
Proof.
  apply (output_filter [] credential disclosure
           (Js.lit "Mein Trainer hat mich angefasst")).
  - vm_compute. reflexivity.
  - vm_compute. reflexivity.
  - vm_compute. reflexivity.
  - vm_compute. reflexivity.
Defined.

(** The phrase between two clean texts. *)
Example carve_out_instance :
  isSafeResponse (Js.lit "Talking about " ++ Js.lit "sexual abuse"
                    ++ Js.lit " takes courage.") = true.
Proof. apply carve_out_passes; vm_compute; reflexivity. Qed.

(** The filter is a substring test: the phrase followed by a letter that
    completes a blocked word is rejected, and so is the German wording. *)
Example carve_out_limits :
  isSafeResponse (Js.lit "sexual abusex") = false
  /\ isSafeResponse (Js.lit "Das ist sexuelle Gewalt.") = false.
Proof. split; vm_compute; reflexivity. Qed.

(** A reply with an explicit-content marker, and a reply that uses the
    phrase in a clean sentence. *)
Example blocked_and_passed :
  reply (ChatJs.handler [] credential disclosure
           (Resolves (Js.lit "This is explicit material.")))
  = Return {| status := 200; json := Chat safeResponse (Js.lit "fallback") |}
  /\ reply (ChatJs.handler [] credential disclosure
              (Resolves (Js.lit "Sexual abuse is never the fault of the child.")))
     = Return {| status := 200;
                 json := Chat (Js.lit "Sexual abuse is never the fault of the child.")
                              (Js.lit "api") |}.
Proof. split; vm_compute; reflexivity. Qed.


(** A rejection with status 401: source ['auth_error'] in [part_000]. *)
Example handlers_differ_on_401 :
  let rejected :=
    Rejects {| name := Js.lit "AxiosError"; code := Some (Js.lit "ERR_BAD_REQUEST");
               error_message := Js.lit "Request failed with status code 401";
               response := Some {| response_status := 401;
                                   data_error_type := None;
                                   data_error_message := None |} |} in
  reply (Part000.handler [] credential disclosure rejected)
  = Return {| status := 200; json := Chat api_key_response (Js.lit "auth_error") |}
  /\ reaches_error_path [] credential disclosure rejected = true.
Proof. split; vm_compute; reflexivity. Qed.

Lemma route_cache_witness :
  JsMap.get (Route.cache_after first_post)
    (Js.lit "Mein Trainer hat mich angefasst" ++ Js.lit ":" ++
     Js.of_nat (match messageHistory disclosure with
                | Some h => length h
                | None => 0
                end))
  = Some (Js.lit "Das ist nicht in Ordnung.")
  /\ reply second_post
     = Return {| status := 200;
                 json := Chat (Js.lit "Das ist nicht in Ordnung.") (Js.lit "cache") |}
  /\ posted second_post = None
  /\ Route.cache_after second_post = Route.cache_after first_post.
Proof.
  apply (route_cache_replays [] credential None disclosure disclosure
           (Resolves (Js.lit "Das ist nicht in Ordnung."))
           (Rejects (Error (Js.lit "Network Error")))
           (Js.lit "Mein Trainer hat mich angefasst")
           (Js.lit "Das ist nicht in Ordnung.") (Js.lit "api")).
  - vm_compute. reflexivity.
  - vm_compute. reflexivity.
  - vm_compute. reflexivity.
  - vm_compute. reflexivity.
  - reflexivity.
  - vm_compute. reflexivity.
  - left. reflexivity.
Defined.

(** Against C10 as worded: the same message is posted twice with the same
    history; the first call to the service is aborted, so the route answers
    with source ['timeout'] and stores nothing, and the second request is
    answered by the service with source ['api'], not from the cache. *)
Lemma aborted_post_is_not_replayed :
  Route.method disclosure = Js.lit "POST"
  /\ reply aborted_post
     = Return {| status := 200;
                 json := Chat timeout_response (Js.lit "timeout") |}
  /\ Route.cache_after aborted_post = []
  /\ reply post_after_abort
     = Return {| status := 200;
                 json := Chat (Js.lit "Das ist nicht in Ordnung.") (Js.lit "api") |}
  /\ reply post_after_abort
     <> Return {| status := 200;
                  json := Chat timeout_response (Js.lit "cache") |}.
Proof.
  split; [reflexivity|]. split; [vm_compute; reflexivity|].
  split; [vm_compute; reflexivity|]. split; [vm_compute; reflexivity|].
  vm_compute. discriminate.
Qed.

(** The key is the raw message: another spelling is another key, and the
    message of the sample request is one the client would not store. *)
Example route_key_is_raw :
  cacheKey (Js.lit "Hallo") (Some []) <> cacheKey (Js.lit "hallo") (Some [])
  /\ containsConcerningContent (Js.lit "Mein Trainer hat mich angefasst") = true.
Proof. split; [vm_compute; discriminate|vm_compute; reflexivity]. Qed.

(** ** The further properties at sample inputs *)

Lemma override_witness :
  (forall history,
     history = [] ++ [user (Js.lit "Ich habe Angst")] ++ [bot (Js.lit "Was ist los?")]
                  ++ [user (Js.lit "Mein Trainer droht mir")]
                  ++ [bot (Js.lit "Das tut mir leid")]
     \/ history = ([] ++ [user (Js.lit "Ich habe Angst")]
                      ++ [bot (Js.lit "Was ist los?")]
                      ++ [user (Js.lit "Mein Trainer droht mir")]
                      ++ [bot (Js.lit "Das tut mir leid")])
                  ++ [user (Js.lit "Magst du Pizza?")] ++ [] ->
     forall cache userInput net random,
       generateBotResponse cache userInput history net random =
       {| result := Return (VString generateSafetyResourcesMessage);
          ChatService.cache_after := cache;
          effects := [ConsoleLog (Js.lit "Concerning content detected in conversation")] |})
  /\ hasConcerningPattern
       ((([] ++ [user (Js.lit "Ich habe Angst")] ++ [bot (Js.lit "Was ist los?")]
             ++ [user (Js.lit "Mein Trainer droht mir")]
             ++ [bot (Js.lit "Das tut mir leid")])
         ++ [user (Js.lit "Magst du Pizza?")] ++ [])
        ++ [user (Js.lit "Und Nudeln?")] ++ [bot (Js.lit "Ja")]) = false.
Proof.
  apply (override_lasts_two_messages []
           [bot (Js.lit "Was ist los?")] [bot (Js.lit "Das tut mir leid")] []
           [bot (Js.lit "Ja")]
           (user (Js.lit "Ich habe Angst")) (user (Js.lit "Mein Trainer droht mir"))
           (user (Js.lit "Magst du Pizza?")) (user (Js.lit "Und Nudeln?"))).
  - cbn [app]. repeat (apply Forall_cons; [vm_compute; reflexivity|]).
    apply Forall_nil.
  - vm_compute. reflexivity.
  - vm_compute. reflexivity.
  - vm_compute. reflexivity.
  - vm_compute. reflexivity.
  - vm_compute. reflexivity.
  - vm_compute. reflexivity.
  - vm_compute. reflexivity.
  - vm_compute. reflexivity.
Defined.

Lemma store_then_lookup_witness :
  (forall spelling,
     toLowerCase spelling = toLowerCase weather ->
     getCachedResponse
       (cacheResponse [] weather (Js.lit "Morgen scheint die Sonne.")) spelling
     = Some (Js.lit "Morgen scheint die Sonne."))
  /\ (JsMap.size [] < 100 ->
      forall other,
        toLowerCase other <> toLowerCase weather ->
        getCachedResponse
          (cacheResponse [] weather (Js.lit "Morgen scheint die Sonne.")) other
        = getCachedResponse [] other).
Proof.
  apply (store_then_lookup [] weather (Js.lit "Morgen scheint die Sonne.")).
  - vm_compute. lia.
  - vm_compute. lia.
  - vm_compute. reflexivity.
Defined.

Lemma response_not_ok_witness :
  ChatService.cache_after
    (generateBotResponse [] weather []
       (FetchResolves 503 (NotJson (Js.lit "Unexpected token <"))) (1#2)) = []
  /\ exists s,
       result (generateBotResponse [] weather []
                 (FetchResolves 503 (NotJson (Js.lit "Unexpected token <"))) (1#2))
       = Return (VString s)
       /\ (503%N = 500%N -> s = server_reply)
       /\ (503%N = 502%N -> s = gateway_reply)
       /\ (503%N <> 500%N -> 503%N <> 502%N -> In s fallbackResponses).
Proof.
  apply (response_not_ok [] weather [] 503
           (NotJson (Js.lit "Unexpected token <")) (1#2)).
  - lia.
  - reflexivity.
  - vm_compute. discriminate.
  - vm_compute. reflexivity.
  - vm_compute. reflexivity.
  - vm_compute. reflexivity.
Defined.

Lemma degraded_reply_witness :
  result (generateBotResponse [] weather []
            (delivered {| status := 200;
                          json := Chat timeout_response (Js.lit "timeout") |}) 0)
  = Return (VString timeout_response)
  /\ (4 <= length weather <= 99 ->
      JsMap.get
        (ChatService.cache_after
           (generateBotResponse [] weather []
              (delivered {| status := 200;
                            json := Chat timeout_response (Js.lit "timeout") |}) 0))
        (toLowerCase weather) = Some timeout_response
      /\ result
           (generateBotResponse
              (ChatService.cache_after
                 (generateBotResponse [] weather []
                    (delivered {| status := 200;
                                  json := Chat timeout_response (Js.lit "timeout") |}) 0))
              weather [] sunny 0)
         = Return (VString timeout_response)
      /\ filter is_request
           (effects
              (generateBotResponse
                 (ChatService.cache_after
                    (generateBotResponse [] weather []
                       (delivered {| status := 200;
                                     json := Chat timeout_response (Js.lit "timeout") |}) 0))
                 weather [] sunny 0)) = [])
  /\ (length weather <= 3 \/ 100 <= length weather ->
      ChatService.cache_after
        (generateBotResponse [] weather []
           (delivered {| status := 200;
                         json := Chat timeout_response (Js.lit "timeout") |}) 0)
      = []).
Proof.
  apply (degraded_reply_is_replayed [] weather timeout_response (Js.lit "timeout")
           [] 200 sunny 0 0).
  - vm_compute. lia.
  - vm_compute. reflexivity.
  - vm_compute. reflexivity.
  - reflexivity.
  - reflexivity.
Defined.

(** The sample input has 27 characters, so the reply is stored; for an input
    of three characters the same reply is returned and nothing is stored. *)
Example degraded_reply_lengths :
  length weather = 27
  /\ result (generateBotResponse [] (Js.lit "Ok?") []
               (delivered {| status := 200;
                             json := Chat timeout_response (Js.lit "timeout") |}) 0)
     = Return (VString timeout_response)
  /\ ChatService.cache_after
       (generateBotResponse [] (Js.lit "Ok?") []
          (delivered {| status := 200;
                        json := Chat timeout_response (Js.lit "timeout") |}) 0)
     = [].
Proof. repeat split; vm_compute; reflexivity. Qed.

Lemma send_witness :
  (forallb Js.is_white (Home.input page) = true ->
   Home.handleSendMessage page [] sunny 0
   = {| Home.state_after := page; Home.service_cache := [];
        Home.typed := []; Home.service_effects := [] |})
  /\ (forallb Js.is_white (Home.input page) = false ->
      exists response,
        result (generateBotResponse [] (Home.input page)
                  (map Home.as_turn (Home.messages page)) sunny 0)
        = Return (VString response)
        /\ Home.messages (Home.state_after (Home.handleSendMessage page [] sunny 0))
           = Home.messages page
             ++ [ {| Home.msg_sender := Js.lit "user";
                     Home.msg_text := Home.input page;
                     Home.isError := false |};
                  {| Home.msg_sender := Js.lit "bot"; Home.msg_text := response;
                     Home.isError := false |} ]
        /\ Home.input (Home.state_after (Home.handleSendMessage page [] sunny 0)) = []
        /\ Home.error (Home.state_after (Home.handleSendMessage page [] sunny 0)) = None
        /\ last (Home.typed (Home.handleSendMessage page [] sunny 0)) [] = response).
Proof.
  apply (send_appends_question_and_answer page [] sunny 0).
  - vm_compute. discriminate.
  - vm_compute. reflexivity.
Defined.

Lemma route_filter_witness :
  (forall e, In e (Route.cache_after first_post) -> isSafeResponse (snd e) = true)
  /\ (forall e, In e (Route.cache_after second_post) -> isSafeResponse (snd e) = true)
  /\ forall n text source,
       reply second_post = Return {| status := n; json := Chat text source |} ->
       n = 200%N /\ isSafeResponse text = true.
Proof.
  apply (route_sends_only_filtered_text (Route.cache_after first_post) None
           disclosure (Rejects (Error (Js.lit "Network Error")))).
  unfold first_post. apply route_call, route_init.
Defined.

Lemma sussex_witness :
  (In (Js.lit "sex")
      [Js.lit "porn"; Js.lit "explicit"; Js.lit "adult content";
       Js.lit "not appropriate for children"; Js.lit "kill yourself";
       Js.lit "self-harm"; Js.lit "suicide"] ->
   isSafeResponse (Js.lit "Brighton liegt in Sus" ++ Js.lit "sex"
                   ++ Js.lit " am Meer.") = false)
  /\ (Js.lit "sex" = Js.lit "sex" ->
      Re.matches_here Re.same_letter
        (Re.one_of [Js.lit "ual violence"; Js.lit "ual abuse";
                    Js.lit "ual harassment"]) (Js.lit " am Meer.") = false ->
      isSafeResponse (Js.lit "Brighton liegt in Sus" ++ Js.lit "sex"
                      ++ Js.lit " am Meer.") = false).
Proof.
  apply (blocked_word_anywhere_is_rejected (Js.lit "Brighton liegt in Sus")
           (Js.lit "sex") (Js.lit " am Meer.") (Js.lit "sex")).
  - repeat (apply Forall_cons; [reflexivity|]). apply Forall_nil.
  - reflexivity.
Defined.

Lemma call_for_help_witness :
  generateBotResponse [] (Js.lit "Hi" ++ Js.lit "lf mir bitte") [] TimerWins 0
  = {| result := Return (VString (Js.lit "Hallo! Schön, dass du da bist. Wie geht es dir heute? Du kannst mir alles erzählen, was dich beschäftigt."));
       ChatService.cache_after := [];
       effects := [ConsoleLog (Js.lit "Using cached response")] |}.
Proof.
  apply (greeting_prefix_is_answered_locally [] (Js.lit "hi") (Js.lit "Hi")
           (Js.lit "lf mir bitte") [] TimerWins 0).
  - right. left. reflexivity.
  - repeat (apply Forall_cons; [reflexivity|]). apply Forall_nil.
  - vm_compute. reflexivity.
  - vm_compute. reflexivity.
  - vm_compute. reflexivity.
Defined.

Lemma child_reads_witness :
  (exists s,
     result (generateBotResponse [] weather [] (delivered forecast) 0)
     = Return (VString s)
     /\ (isSafeResponse s = true \/ s = generateSafetyResourcesMessage))
  /\ (forall e,
        In e (ChatService.cache_after
                (generateBotResponse [] weather [] (delivered forecast) 0)) ->
        isSafeResponse (snd e) = true)
  /\ isSafeResponse generateSafetyResourcesMessage = false.
Proof.
  apply (child_reads_filtered_text [] [] credential weather []
           (Resolves (Js.lit "Morgen scheint die Sonne.")) (delivered forecast) 0).
  - apply route_init.
  - intros e [].
  - vm_compute. discriminate.
  - vm_compute. reflexivity.
  - left. exists forecast. split; [vm_compute; reflexivity|reflexivity].
Defined.
